(** * Infrastructure digest bot: a shallow embedding of [digest_bot.py]

    The pure parts of [InfrastructureDigestBot] are embedded as Rocq
    functions: [clean_text], [categorize_headlines],
    [create_fallback_digest], [generate_digest_with_gemini] and the text
    rewriting done by [send_to_telegram].

    Python strings are sequences of Unicode code points, so a [str] is a
    list of code points ([N]); [len] is [length] and slicing is
    [take]/[drop]. *)

From Stdlib Require Import NArith Lia Ascii String DecimalString.
From stdpp Require Import base tactics decidable option numbers list.

Local Open Scope N_scope.

(** ** Python strings *)

Abbreviation codepoint := N (only parsing).
Abbreviation pystr := (list N) (only parsing).

(** An ASCII literal of the source as a [str]. *)
Definition py (s : string) : pystr :=
  List.map N_of_ascii (list_ascii_of_string s).

Definition SP : codepoint := 32.
Definition LF : codepoint := 10.

Module PyStr.

(** [str.isspace] on one code point, which is also what [\s] matches in a
    [str] pattern and what [str.strip()] removes: the ASCII whitespace
    and separators 9-13 and 28-32, and the Unicode white space of the
    other planes. *)
Definition isspace (c : codepoint) : bool :=
  ((9 <=? c) && (c <=? 13)) || ((28 <=? c) && (c <=? 32))
  || (c =? 133) || (c =? 160) || (c =? 5760)
  || ((8192 <=? c) && (c <=? 8202))
  || (c =? 8232) || (c =? 8233) || (c =? 8239) || (c =? 8287)
  || (c =? 12288).

(** [[\x00-\x7F]]: the code point is ASCII. *)
Definition isascii (c : codepoint) : bool := c <=? 127.

(** Printable ASCII, [' '] to ['~']. *)
Definition isprintable_ascii (c : codepoint) : bool :=
  (32 <=? c) && (c <=? 126).

Fixpoint lstrip (s : pystr) : pystr :=
  match s with
  | c :: s' => if isspace c then lstrip s' else s
  | [] => []
  end.

Definition rstrip (s : pystr) : pystr := rev (lstrip (rev s)).

(** [s.strip()] *)
Definition strip (s : pystr) : pystr := rstrip (lstrip s).

(** [re.sub(r'\s+', ' ', s)]: every maximal run of whitespace becomes one
    space.  [in_run] says that the previous character belonged to a run
    that has already been replaced. *)
Fixpoint sub_ws_from (in_run : bool) (s : pystr) : pystr :=
  match s with
  | [] => []
  | c :: s' =>
      if isspace c
      then (if in_run then sub_ws_from true s' else SP :: sub_ws_from true s')
      else c :: sub_ws_from false s'
  end.

Definition sub_ws (s : pystr) : pystr := sub_ws_from false s.

(** [re.sub(r'[^\x00-\x7F]+', '', s)]: every run of non-ASCII code points
    is deleted. *)
Definition sub_non_ascii (s : pystr) : pystr :=
  List.filter isascii s.

(** [needle in s] helpers: [startswith] and the substring test. *)
Fixpoint startswith (s p : pystr) {struct p} : bool :=
  match p, s with
  | [], _ => true
  | _ :: _, [] => false
  | a :: p', b :: s' => (a =? b) && startswith s' p'
  end.

Fixpoint contains (s needle : pystr) : bool :=
  startswith s needle
  || match s with
     | [] => false
     | _ :: s' => contains s' needle
     end.

(** [s.replace(old, new)]: occurrences of [old] are replaced from left to
    right, and the scan resumes after each replaced occurrence.  [skip]
    counts the characters of the occurrence just replaced that are still
    to be passed over.  With an empty [old] Python inserts [new] before
    every character and at the end. *)
Fixpoint replace_from (old new : pystr) (skip : nat) (s : pystr) : pystr :=
  match s with
  | [] => []
  | c :: s' =>
      match skip with
      | S k => replace_from old new k s'
      | O =>
          if startswith s old
          then new ++ replace_from old new (Nat.pred (length old)) s'
          else c :: replace_from old new O s'
      end
  end.

Definition replace (s old new : pystr) : pystr :=
  match old with
  | [] => new ++ flat_map (fun c => c :: new) s
  | _ :: _ => replace_from old new O s
  end.

(** [sep.join(parts)] *)
Fixpoint join (sep : pystr) (parts : list pystr) : pystr :=
  match parts with
  | [] => []
  | [p] => p
  | p :: rest => p ++ sep ++ join sep rest
  end.

(** [str(n)] for a length. *)
Definition of_nat (n : nat) : pystr :=
  py (NilEmpty.string_of_uint (Nat.to_uint n)).

(** ASCII part of [str.lower]. *)
Definition lower_ascii (c : codepoint) : codepoint :=
  if (65 <=? c) && (c <=? 90) then c + 32 else c.

End PyStr.

(** ** [clean_text] *)

Definition ellipsis : pystr := py "...".

(** The two [re.sub] calls of [clean_text], on a non-empty argument. *)
Definition clean_body (text : pystr) : pystr :=
  PyStr.sub_non_ascii (PyStr.sub_ws (PyStr.strip text)).

(** [text[:200] + "..." if len(text) > 200 else text] *)
Definition truncate (text : pystr) : pystr :=
  if (200 <? length text)%nat then take 200 text ++ ellipsis else text.

(** [clean_text(self, text)]; [None] is a missing text.  [not text] holds
    of [None] and of the empty string. *)
Definition clean_text (text : option pystr) : pystr :=
  match text with
  | None => []
  | Some [] => []
  | Some t => truncate (clean_body t)
  end.

(** ** Headlines and category buckets *)

(** The dictionaries built by [scrape_example]. *)
Record Headline : Type := mkHeadline {
  title : pystr;
  source : pystr;
  url : pystr
}.

#[global] Instance Headline_eq_dec : EqDecision Headline.
Proof. solve_decision. Defined.

(** A [dict] from category label to list of headlines, in insertion
    order, as [dict.items()] enumerates it. *)
Abbreviation buckets := (list (pystr * list Headline)) (only parsing).

(** [categories[key].append(h)]; the keys used by the source are those of
    the literal the dictionary is built from. *)
Fixpoint dict_append (key : pystr) (h : Headline) (d : buckets) : buckets :=
  match d with
  | [] => []
  | (k, items) :: d' =>
      if decide (k = key) then (k, items ++ [h]) :: d'
      else (k, items) :: dict_append key h d'
  end.

(** [categories[key]], with the empty list for an absent key. *)
Fixpoint dict_get (key : pystr) (d : buckets) : list Headline :=
  match d with
  | [] => []
  | (k, items) :: d' => if decide (k = key) then items else dict_get key d'
  end.

Definition ENERGY_OIL : pystr := py "Energy & Oil".
Definition CONSTRUCTION : pystr := py "Construction & Infrastructure".
Definition TENDERS : pystr := py "Tenders & Contracts".
Definition TECHNOLOGY : pystr := py "Technology & Innovation".
Definition HEAVY_EQUIPMENT : pystr := py "Heavy Equipment".
Definition OTHER_NEWS : pystr := py "Other News".

(** The dictionary literal that opens [categorize_headlines]. *)
Definition categories_init : buckets :=
  [ (ENERGY_OIL, []); (CONSTRUCTION, []); (TENDERS, []);
    (TECHNOLOGY, []); (HEAVY_EQUIPMENT, []); (OTHER_NEWS, []) ].

Definition energy : list pystr := [py "oil"; py "gas"; py "energy"; py "ongc"].
Definition construction : list pystr :=
  [py "construction"; py "infrastructure"; py "bridge"; py "metro"].
Definition tenders : list pystr := [py "tender"; py "bid"; py "contract"].
Definition tech : list pystr := [py "technology"; py "digital"; py "ai"].
Definition equipment : list pystr :=
  [py "crane"; py "loader"; py "excavator"; py "backhoe"; py "bulldozer";
   py "heavy equipment"; py "jcb"; py "construction machine"].

(** [any(k in title for k in keywords)] *)
Definition any_in (keywords : list pystr) (title : pystr) : bool :=
  existsb (fun k => PyStr.contains title k) keywords.

Section Categorizer.

(** [str.lower] outside ASCII follows the Unicode case tables, which the
    program does not own: they are a parameter.  On an ASCII string
    [str.lower] maps ['A'..'Z'] to ['a'..'z'] and nothing else. *)
Variable unicode_lower : pystr -> pystr.

Definition lower (s : pystr) : pystr :=
  if forallb PyStr.isascii s then List.map PyStr.lower_ascii s
  else unicode_lower s.

(** The body of the [for h in headlines] loop. *)
Definition categorize_step (categories : buckets) (h : Headline) : buckets :=
  let t := lower (title h) in
  if any_in energy t then dict_append ENERGY_OIL h categories
  else if any_in construction t then dict_append CONSTRUCTION h categories
  else if any_in tenders t then dict_append TENDERS h categories
  else if any_in equipment t then dict_append HEAVY_EQUIPMENT h categories
  else if any_in tech t then dict_append TECHNOLOGY h categories
  else dict_append OTHER_NEWS h categories.

Definition categorize_headlines (headlines : list Headline) : buckets :=
  fold_left categorize_step headlines categories_init.

End Categorizer.

(** ** The fallback digest *)

(** What the program reads from the clock: [now_ist.hour] and
    [now_ist.strftime("%d %B %Y")]. *)
Record Clock : Type := mkClock {
  hour : N;
  date_only : pystr
}.

Definition greeting (now : Clock) : pystr :=
  if hour now <? 12 then py "Good Morning Mr. Keshav Agarwal"
  else py "Good Evening Mr. Keshav Agarwal".

Definition CHART : codepoint := 128200.   (* U+1F4C8 *)
Definition ROCKET : codepoint := 128640.  (* U+1F680 *)
Definition BULLET : codepoint := 8226.    (* U+2022 *)
Definition EN_DASH : codepoint := 8211.   (* U+2013 *)

Definition signature_line : pystr := py "Stay ahead with CD Jindal AI Assistant".
Definition signature : pystr := ROCKET :: py " " ++ signature_line.
Definition no_news_line : pystr := py "No infrastructure news today.".

Definition digest_header (now : Clock) : pystr :=
  py "<b>" ++ greeting now ++ py "! " ++ [CHART] ++ py "</b>" ++ [LF]
  ++ date_only now ++ [LF; LF]
  ++ py "<b>Daily Infrastructure Industry Digest</b>" ++ [LF; LF].

(** The bold heading of one category, [<b>{category}:</b>\n]. *)
Definition category_heading (category : pystr) : pystr :=
  py "<b>" ++ category ++ py ":</b>" ++ [LF].

Section Fallback.

(** [list(set(xs))]: the order in which a [set] of strings is enumerated
    depends on the hashes of the strings, which the interpreter salts anew
    in every process.  The enumeration is a parameter. *)
Variable list_of_set : list pystr -> list pystr.

(** The text one bucket adds to the digest. *)
Definition bucket_section (category : pystr) (items : list Headline) : pystr :=
  match items with
  | [] => []
  | _ :: _ =>
      let sources := list_of_set (List.map source items) in
      category_heading category
      ++ PyStr.of_nat (length items) ++ py " key updates from "
      ++ PyStr.join (py ", ") (take 2 sources) ++ py "." ++ [LF; LF]
  end.

(** [not any(categorized_headlines.values())] *)
Definition no_items (categorized : buckets) : bool :=
  forallb (fun kv => match snd kv with [] => true | _ :: _ => false end)
          categorized.

Definition create_fallback_digest (now : Clock) (categorized : buckets) : pystr :=
  let digest := digest_header now in
  let digest :=
    fold_left (fun digest kv => digest ++ bucket_section (fst kv) (snd kv))
              categorized digest in
  let digest :=
    if no_items categorized then digest ++ no_news_line ++ [LF; LF]
    else digest in
  digest ++ signature.

End Fallback.

(** An enumeration that [list(set(xs))] may produce: every element of [xs]
    once, in some order. *)
Definition set_enumeration (f : list pystr -> list pystr) : Prop :=
  forall xs, NoDup (f xs) /\ (forall x, In x (f xs) <-> In x xs).

(** Two such enumerations: first occurrences in order, and the reverse. *)
Fixpoint first_occurrences (xs : list pystr) : list pystr :=
  match xs with
  | [] => []
  | x :: xs' =>
      x :: List.filter (fun y => negb (bool_decide (y = x))) (first_occurrences xs')
  end.

Definition last_first (xs : list pystr) : list pystr :=
  rev (first_occurrences xs).

(** ** The composer *)

(** What a Python computation raises: an instance of [Exception], or of a
    class that derives from [BaseException] only ([KeyboardInterrupt],
    [SystemExit]); the string is the message. *)
Inductive exn : Type :=
| Exception (message : pystr)
| BaseException (message : pystr).

(** A Python computation either returns a value or raises. *)
Inductive result (A : Type) : Type :=
| Ok (a : A)
| Raise (e : exn).
Arguments Ok {A} a.
Arguments Raise {A} e.

Definition bind {A B : Type} (m : result A) (k : A -> result B) : result B :=
  match m with
  | Ok a => k a
  | Raise e => Raise e
  end.

Notation "'let*' x := m 'in' k" := (bind m (fun x => k))
  (at level 10, x name, m at level 100, k at level 200).

(** [try: body  except Exception as e: handler(e)]: the handler takes the
    instances of [Exception]; anything else that is raised goes on to the
    caller. *)
Definition try_except {A : Type} (body : result A) (handler : pystr -> result A)
  : result A :=
  match body with
  | Ok a => Ok a
  | Raise (Exception e) => handler e
  | Raise (BaseException e) => Raise (BaseException e)
  end.

(** The [for cat, items in categorized_headlines.items()] loop of
    [generate_digest_with_gemini]: the text and the article count. *)
Definition headline_line (h : Headline) : pystr :=
  py "- " ++ title h ++ py " (" ++ source h ++ py ")" ++ [LF].

Definition prompt_section (acc : pystr * nat) (kv : pystr * list Headline)
  : pystr * nat :=
  match snd kv with
  | [] => acc
  | _ :: _ =>
      fold_left (fun a h => (fst a ++ headline_line h, S (snd a)))
                (snd kv)
                (fst acc ++ [LF] ++ fst kv ++ py ":" ++ [LF], snd acc)
  end.

Definition build_prompt (now : Clock) (categorized : buckets) : pystr :=
  let '(headlines_text, total_articles) :=
    fold_left prompt_section categorized ([], O) in
  let headlines_text :=
    match PyStr.strip headlines_text with
    | [] => py "No infrastructure news available."
    | _ :: _ => headlines_text
    end in
  greeting now ++ py "! " ++ [CHART; LF] ++ date_only now ++ [LF; LF]
  ++ py "Here are today's top Infrastructure Headlines ("
  ++ PyStr.of_nat total_articles ++ py " total):" ++ [LF]
  ++ headlines_text ++ [LF; LF]
  ++ py "Now write a Telegram-friendly summary using the following rules:" ++ [LF]
  ++ py "- Use only <b> and <i> HTML tags." ++ [LF]
  ++ py "- For each category (like Energy & Oil, Heavy Equipment, etc.), summarize in 2"
  ++ [EN_DASH] ++ py "3 impactful sentences." ++ [LF]
  ++ py "- Include specific company names, numbers, and regions." ++ [LF]
  ++ py "- Mention the source name (e.g., ET Infra), but do not hyperlink it." ++ [LF]
  ++ py "- Make a separate section for <b>Heavy Equipment</b> updates (like cranes, excavators, machinery)." ++ [LF]
  ++ py "- End with: " ++ signature.

Section Composer.

Variable list_of_set : list pystr -> list pystr.

(** [self.gemini_model.generate_content(prompt)] followed by
    [response.text]: the text, or the exception either of them raised. *)
Variable generate_content : pystr -> result pystr.


End Composer.

(** ** The dispatcher *)

(** The chain of [str.replace] calls that [send_to_telegram] applies to the
    message before it is sent. *)
Definition clean_message (message : pystr) : pystr :=
  let m := PyStr.replace message (py "<ul>") [] in
  let m := PyStr.replace m (py "</ul>") [] in
  let m := PyStr.replace m (py "<li>") (BULLET :: py " ") in
  let m := PyStr.replace m (py "</li>") [LF] in
  let m := PyStr.replace m (py "<br>") [LF] in
  let m := PyStr.replace m (py "<br/>") [LF] in
  let m := PyStr.replace m (py "<br />") [LF] in
  PyStr.replace m (py "&nbsp;") (py " ").

(** ** The categorizer in the words of the specification *)

(** The rule sets in the priority order of the specification. *)
Definition priority_rules : list (pystr * list pystr) :=
  [ (ENERGY_OIL, energy); (CONSTRUCTION, construction); (TENDERS, tenders);
    (HEAVY_EQUIPMENT, equipment); (TECHNOLOGY, tech) ].

(** The first rule set one of whose keywords occurs in [t], and
    [Other News] when there is none. *)
Fixpoint first_match (rules : list (pystr * list pystr)) (t : pystr) : pystr :=
  match rules with
  | [] => OTHER_NEWS
  | (label, keywords) :: rules' =>
      if any_in keywords t then label else first_match rules' t
  end.

(** [needle] occurs in [s] at some position. *)
Definition occurs_in (needle s : pystr) : Prop :=
  exists pre post, s = pre ++ needle ++ post.

(** Some keyword of the rule set occurs in [t]. *)
Definition rule_fires (keywords : list pystr) (t : pystr) : Prop :=
  exists k, In k keywords /\ occurs_in k t.

(** [chosen rules t label]: [label] is the label of the first rule set of
    [rules] that fires on [t], or [Other News] when none fires. *)
Inductive chosen : list (pystr * list pystr) -> pystr -> pystr -> Prop :=
| chosen_other t :
    chosen [] t OTHER_NEWS
| chosen_first label keywords rules t :
    rule_fires keywords t ->
    chosen ((label, keywords) :: rules) t label
| chosen_next label keywords rules t l :
    ~ rule_fires keywords t ->
    chosen rules t l ->
    chosen ((label, keywords) :: rules) t l.

(** The bucket the specification gives a headline. *)
Definition category_of (unicode_lower : pystr -> pystr) (h : Headline) : pystr :=
  first_match priority_rules (lower unicode_lower (title h)).

(** The labels of the buckets, in the order of the dictionary. *)
Definition category_labels : list pystr := List.map fst categories_init.

(** ** Sample data *)

Definition ongc_headline : Headline :=
  mkHeadline (py "ONGC signs tender for gas pipeline") (py "ET Infra")
             (py "https://infra.economictimes.indiatimes.com/x").

Definition crane_headline : Headline :=
  mkHeadline (py "New crane fleet for port") (py "BEML")
             (py "https://www.bemlindia.in/press-release/").

Definition gas_headline : Headline :=
  mkHeadline (py "Gas grid expands") (py "ONGC") (py "https://ongcindia.com/").

Definition noon : Clock := mkClock 12 (py "03 November 2026").

Definition li_fragment : pystr := py "<li>Foo</li><br>Bar".

(** An Energy & Oil bucket with headlines from two sources. *)
Definition two_source_buckets : buckets :=
  categorize_headlines (fun s => s) [ongc_headline; gas_headline].



(** ** Shapes of cleaned text *)

(** The first character, if any, is not whitespace. *)
Definition head_ok (s : pystr) : Prop :=
  match s with
  | [] => True
  | c :: _ => PyStr.isspace c = false
  end.

(** The last character, if any, is not whitespace. *)
Definition last_ok (s : pystr) : Prop := head_ok (rev s).

(** A string in which whitespace occurs only as single spaces: the fixed
    points of [sub_ws_from]. *)
Fixpoint spaced (prev : bool) (s : pystr) : bool :=
  match s with
  | [] => true
  | c :: s' =>
      if PyStr.isspace c then negb prev && (c =? SP) && spaced true s'
      else spaced false s'
  end.

(** ** Occurrences across a boundary *)

(** No occurrence of [old] in [pre ++ s] lies across the boundary. *)
Definition no_straddle (old pre s : pystr) : Prop :=
  forall u v, pre = u ++ v -> v <> [] ->
              PyStr.startswith (v ++ s) old = true ->
              PyStr.startswith v old = true.

(** The ends of [frag] that are a beginning of [old] and shorter than it:
    there an occurrence could go on into the text that follows. *)
Fixpoint overhang (old frag : pystr) : bool :=
  match frag with
  | [] => false
  | _ :: frag' =>
      (PyStr.startswith old frag && (length frag <? length old)%nat)
      || overhang old frag'
  end.

(** What the dispatcher sends for [li_fragment], and what the
    specification expects. *)
Definition li_fragment_sent : pystr :=
  BULLET :: py " Foo" ++ [LF; LF] ++ py "Bar".
Definition li_fragment_expected : pystr :=
  BULLET :: py " Foo" ++ [LF] ++ py "Bar".

(** ** The scraper *)

(** What the scraper reads of one selected element: [get_text(strip=True)]
    and [get("href")], which is [None] when the element has no such
    attribute. *)
Record Article : Type := mkArticle {
  get_text : pystr;
  href : option pystr
}.

Definition SLASH : codepoint := 47.

(** [s.lstrip(ch)] and [s.rstrip(ch)] for a one-character argument. *)
Fixpoint lstrip_char (ch : codepoint) (s : pystr) : pystr :=
  match s with
  | c :: s' => if c =? ch then lstrip_char ch s' else s
  | [] => []
  end.

Definition rstrip_char (ch : codepoint) (s : pystr) : pystr :=
  rev (lstrip_char ch (rev s)).

(** [href if href and href.startswith("http")
     else f"{url.rstrip('/')}/{href.lstrip('/')}" if href else url] *)
Definition resolve_link (url : pystr) (href : option pystr) : pystr :=
  match href with
  | Some (c :: h) =>
      if PyStr.startswith (c :: h) (py "http") then c :: h
      else rstrip_char SLASH url ++ py "/" ++ lstrip_char SLASH (c :: h)
  | Some [] => url
  | None => url
  end.

(** The [urls] dictionary of [scrape_example], in insertion order. *)
Definition urls : list (pystr * pystr) :=
  [ (py "ET Infra", py "https://infra.economictimes.indiatimes.com/");
    (py "Infrastructure Today", py "https://infrastructuretoday.co.in/");
    (py "L&T", py "https://www.larsentoubro.com/corporate/media/press-releases/");
    (py "Construction World", py "https://www.constructionworld.in/latest-news");
    (py "ONGC", py "https://ongcindia.com/");
    (py "Projects Today", py "https://www.projectstoday.com/News");
    (py "BEML", py "https://www.bemlindia.in/press-release/") ].

(** The CSS selector the [if]/[elif] chain picks for a source; [None] is
    the final [else], which selects nothing. *)
Definition selector (source : pystr) : option pystr :=
  if decide (source = py "ET Infra") then Some (py "h3 a")
  else if decide (source = py "Infrastructure Today") then Some (py ".jeg_post_title a")
  else if decide (source = py "L&T") then Some (py "div.latest-news h3 a")
  else if decide (source = py "Construction World") then Some (py "h3 a")
  else if decide (source = py "ONGC") then Some (py "div.news a")
  else if decide (source = py "Projects Today") then Some (py "div.card h4 a")
  else if decide (source = py "BEML") then Some (py "div.page-title h1")
  else None.

(** The body of the [for article in articles[:10]] loop. *)
Definition scrape_article (source url : pystr) (headlines : list Headline)
    (article : Article) : list Headline :=
  let title := clean_text (Some (get_text article)) in
  let link := resolve_link url (href article) in
  match title with
  | [] => headlines
  | _ :: _ => headlines ++ [mkHeadline title source link]
  end.

Section Scraper.

(** The parsed page, [self.session.get(url, timeout=20)] followed by
    [BeautifulSoup(response.content, 'html.parser')], which may raise, and
    [soup.select(css)]. *)
Variable Soup : Type.
Variable get_soup : pystr -> result Soup.
Variable select : Soup -> pystr -> list Article.

(** The body of the [for source, url in urls.items()] loop with its
    [try]/[except Exception]: a site whose page raises an [Exception]
    leaves [headlines] as it is; any other raise leaves the loop. *)
Definition scrape_site (headlines : list Headline) (site : pystr * pystr)
  : result (list Headline) :=
  try_except
    (let* soup := get_soup (snd site) in
     let articles :=
       match selector (fst site) with
       | Some css => select soup css
       | None => []
       end in
     Ok (fold_left (scrape_article (fst site) (snd site)) (take 10 articles)
                   headlines))
    (fun _ => Ok headlines).

Definition scrape_example : result (list Headline) :=
  fold_left (fun acc site => let* headlines := acc in scrape_site headlines site)
            urls (Ok []).

End Scraper.

(** The headlines one site adds, given the elements selected on its page. *)
Definition site_headlines (source url : pystr) (articles : list Article)
  : list Headline :=
  flat_map (fun a =>
              match clean_text (Some (get_text a)) with
              | [] => []
              | c :: t => [mkHeadline (c :: t) source (resolve_link url (href a))]
              end)
           (take 10 articles).

(** ** The whole run *)

Section Run.

Variable Soup : Type.
Variable get_soup : pystr -> result Soup.
Variable select : Soup -> pystr -> list Article.
Variable unicode_lower : pystr -> pystr.
Variable list_of_set : list pystr -> list pystr.
Variable generate_content : pystr -> result pystr.


End Run.

(** ** The prompt in parts *)

(** The lines one bucket adds to [headlines_text]. *)
Definition prompt_bucket_text (kv : pystr * list Headline) : pystr :=
  match snd kv with
  | [] => []
  | _ :: _ =>
      [LF] ++ fst kv ++ py ":" ++ [LF] ++ concat (List.map headline_line (snd kv))
  end.

(** The instructions that close the prompt. *)
Definition prompt_rules : pystr :=
  py "Now write a Telegram-friendly summary using the following rules:" ++ [LF]
  ++ py "- Use only <b> and <i> HTML tags." ++ [LF]
  ++ py "- For each category (like Energy & Oil, Heavy Equipment, etc.), summarize in 2"
  ++ [EN_DASH] ++ py "3 impactful sentences." ++ [LF]
  ++ py "- Include specific company names, numbers, and regions." ++ [LF]
  ++ py "- Mention the source name (e.g., ET Infra), but do not hyperlink it." ++ [LF]
  ++ py "- Make a separate section for <b>Heavy Equipment</b> updates (like cranes, excavators, machinery)." ++ [LF]
  ++ py "- End with: " ++ signature.

(** The fragments the dispatcher rewrites. *)
Definition rewritten_fragments : list pystr :=
  [py "<ul>"; py "</ul>"; py "<li>"; py "</li>"; py "<br>"; py "<br/>";
   py "<br />"; py "&nbsp;"].


(** A page source that is up, and one whose third site is interrupted. *)
Definition site_up (url : pystr) : result unit := Ok tt.


Definition relative_article : Article :=
  mkArticle (py "  Metro  line opens ") (Some (py "/news/metro-line")).

Definition one_article (soup : unit) (css : pystr) : list Article :=
  [relative_article].


(** ** Shapes of scraped headlines *)

(** The page of the site is had, or what is raised for it is an
    [Exception]. *)
Definition not_interrupted {Soup : Type} (get_soup : pystr -> result Soup)
    (site : pystr * pystr) : Prop :=
  forall b, get_soup (snd site) <> Raise (BaseException b).

(** The characters of a cleaned text: ASCII, and no whitespace but the
    plain space.  These are U+0000..U+0008, U+000E..U+001B and
    U+0020..U+007F. *)
Definition clean_char (c : codepoint) : bool :=
  PyStr.isascii c && (negb (PyStr.isspace c) || (c =? SP)).

Definition clean_char_ranges (c : codepoint) : bool :=
  (c <=? 8) || ((14 <=? c) && (c <=? 27)) || ((32 <=? c) && (c <=? 127)).

(** A character is not whitespace, or it is the plain space. *)
Definition plain (c : codepoint) : bool := negb (PyStr.isspace c) || (c =? SP).

(** What holds of a headline that comes from the site [label]. *)
Definition scraped_ok (label : pystr) (h : Headline) : Prop :=
  title h <> [] /\ forallb PyStr.isascii (title h) = true
  /\ (length (title h) <= 203)%nat
  /\ source h = label
  /\ PyStr.startswith (url h) (py "http") = true.


(** * Properties *)

(** ** Whitespace trimming and collapsing *)

Section StripFacts.
Import PyStr.

Lemma lstrip_head_ok s : head_ok (lstrip s).
Proof.
  induction s as [|c s IH]; simpl; [done|].
  destruct (isspace c) eqn:E; [done|]. simpl. done.
Qed.

Lemma lstrip_fix s : head_ok s -> lstrip s = s.
Proof. destruct s as [|c s]; simpl; [done|]. by intros ->. Qed.

Lemma lstrip_suffix s : exists w, s = w ++ lstrip s.
Proof.
  induction s as [|c s [w IH]]; simpl.
  - by exists [].
  - destruct (isspace c).
    + exists (c :: w). simpl. by f_equal.
    + by exists [].
Qed.

Lemma rstrip_last_ok s : last_ok (rstrip s).
Proof.
  unfold last_ok, rstrip. rewrite rev_involutive. apply lstrip_head_ok.
Qed.

Lemma rstrip_fix s : last_ok s -> rstrip s = s.
Proof.
  unfold last_ok, rstrip. intros H. rewrite lstrip_fix by done.
  apply rev_involutive.
Qed.

Lemma rstrip_prefix s : exists w, s = rstrip s ++ w.
Proof.
  destruct (lstrip_suffix (rev s)) as [w Hw].
  exists (rev w). unfold rstrip.
  rewrite <- rev_app_distr, <- Hw. by rewrite rev_involutive.
Qed.

Lemma rstrip_head_ok s : head_ok s -> head_ok (rstrip s).
Proof.
  destruct (rstrip_prefix s) as [w Hw]. intros H.
  destruct (rstrip s) as [|c r]; [done|].
  rewrite Hw in H. exact H.
Qed.

Lemma strip_head_ok s : head_ok (strip s).
Proof. apply rstrip_head_ok, lstrip_head_ok. Qed.

Lemma strip_last_ok s : last_ok (strip s).
Proof. apply rstrip_last_ok. Qed.

Lemma strip_fix s : head_ok s -> last_ok s -> strip s = s.
Proof.
  intros Hh Hl. unfold strip. rewrite lstrip_fix by done. by apply rstrip_fix.
Qed.

Lemma last_ok_snoc l c : isspace c = false -> last_ok (l ++ [c]).
Proof. intros H. unfold last_ok. rewrite rev_app_distr. exact H. Qed.

Lemma last_ok_inv s :
  last_ok s -> s = [] \/ exists l c, s = l ++ [c] /\ isspace c = false.
Proof.
  unfold last_ok. intros H.
  destruct (rev s) as [|c r] eqn:E.
  - left. apply (f_equal (@rev N)) in E. rewrite rev_involutive in E. exact E.
  - right. exists (rev r), c. split; [|done].
    apply (f_equal (@rev N)) in E. rewrite rev_involutive in E. exact E.
Qed.

Lemma last_ok_app l1 l2 : l2 <> [] -> last_ok l2 -> last_ok (l1 ++ l2).
Proof.
  intros Hne H. destruct (last_ok_inv _ H) as [->|(l & c & -> & Hc)]; [done|].
  rewrite app_assoc. by apply last_ok_snoc.
Qed.

Lemma sub_ws_from_spaced b s : spaced b (sub_ws_from b s) = true.
Proof.
  revert b. induction s as [|c s IH]; intros b; simpl; [done|].
  destruct (isspace c) eqn:E.
  - destruct b; [apply IH|]. simpl. apply IH.
  - simpl. rewrite E. apply IH.
Qed.

Lemma spaced_fix b s : spaced b s = true -> sub_ws_from b s = s.
Proof.
  revert b. induction s as [|c s IH]; intros b; simpl; [done|].
  destruct (isspace c) eqn:E.
  - destruct b; simpl; [done|].
    intros H. apply andb_prop in H as [Hc Hs].
    apply N.eqb_eq in Hc. rewrite (IH _ Hs). by rewrite Hc.
  - intros H. by rewrite (IH _ H).
Qed.

Lemma spaced_take b n s : spaced b s = true -> spaced b (take n s) = true.
Proof.
  revert b n. induction s as [|c s IH]; intros b [|n]; simpl; try done.
  destruct (isspace c).
  - intros H. apply andb_prop in H as [Hc Hs]. rewrite Hc. simpl. by apply IH.
  - apply IH.
Qed.

Lemma spaced_app_nonws b s l :
  spaced b s = true -> forallb (fun c => negb (isspace c)) l = true ->
  spaced b (s ++ l) = true.
Proof.
  intros Hs Hl. revert b Hs. induction s as [|c s IH]; intros b Hs; simpl in *.
  - clear Hs. revert b. induction l as [|c l IHl]; intros b; simpl in *; [done|].
    apply andb_prop in Hl as [Hc Hl]. apply negb_true_iff in Hc. rewrite Hc.
    by apply IHl.
  - destruct (isspace c).
    + apply andb_prop in Hs as [Hc Hs]. rewrite Hc. simpl. by apply IH.
    + by apply IH.
Qed.

Lemma sub_ws_from_head_ok s : head_ok s -> head_ok (sub_ws_from false s).
Proof. destruct s as [|c s]; simpl; [done|]. intros H. rewrite H. exact H. Qed.

Lemma sub_ws_from_snoc b l c :
  isspace c = false -> sub_ws_from b (l ++ [c]) = sub_ws_from b l ++ [c].
Proof.
  intros Hc. revert b. induction l as [|a l IH]; intros b; simpl.
  - by rewrite Hc.
  - destruct (isspace a); [destruct b|]; by rewrite IH.
Qed.

Lemma sub_ws_from_last_ok b s : last_ok s -> last_ok (sub_ws_from b s).
Proof.
  intros H. destruct (last_ok_inv _ H) as [->|(l & c & -> & Hc)]; [done|].
  rewrite sub_ws_from_snoc by done. by apply last_ok_snoc.
Qed.

(** Every character of the collapsed string is a space or comes from the
    argument. *)
Lemma sub_ws_from_elem b s c :
  In c (sub_ws_from b s) -> c = SP \/ In c s.
Proof.
  revert b. induction s as [|a s IH]; intros b; simpl; [done|].
  destruct (isspace a).
  - destruct b; simpl; intros H.
    + destruct (IH _ H); auto.
    + destruct H as [H|H]; [auto|]. destruct (IH _ H); auto.
  - simpl. intros [H|H]; [auto|]. destruct (IH _ H); auto.
Qed.

Lemma strip_elem s c : In c (strip s) -> In c s.
Proof.
  unfold strip. intros H.
  destruct (rstrip_prefix (lstrip s)) as [w Hw].
  destruct (lstrip_suffix s) as [w' Hw'].
  rewrite Hw', Hw. rewrite !in_app_iff. auto.
Qed.

End StripFacts.

(** ** [clean_text] *)

Section CleanText.
Import PyStr.

Lemma filter_all (f : N -> bool) (l : pystr) :
  forallb f l = true -> List.filter f l = l.
Proof.
  induction l as [|c l IH]; simpl; [done|].
  intros H. apply andb_prop in H as [Hc Hl]. rewrite Hc. by rewrite IH.
Qed.

Lemma sub_non_ascii_ascii s : forallb isascii (sub_non_ascii s) = true.
Proof.
  unfold sub_non_ascii. apply forallb_forall. intros c Hc.
  by apply filter_In in Hc as [_ Hc].
Qed.

Lemma truncate_length s : (length (truncate s) <= 203)%nat.
Proof.
  unfold truncate. destruct (200 <? length s)%nat eqn:E.
  - rewrite length_app, length_take. change (length ellipsis) with 3%nat. lia.
  - apply Nat.ltb_ge in E. lia.
Qed.

Lemma truncate_elem s c : In c (truncate s) -> In c s \/ In c ellipsis.
Proof.
  unfold truncate. destruct (200 <? length s)%nat; [|auto].
  rewrite in_app_iff. intros [H|H]; [left|by right].
  rewrite <- (take_drop 200 s). apply in_app_iff. by left.
Qed.

Lemma clean_body_nil : clean_body [] = [].
Proof. reflexivity. Qed.

(** On ASCII text the second substitution of [clean_text] changes nothing. *)
Lemma clean_body_of_ascii x :
  forallb isascii x = true -> clean_body x = sub_ws (strip x).
Proof.
  intros Hx. unfold clean_body, sub_non_ascii. apply filter_all.
  apply forallb_forall. intros c Hc.
  destruct (sub_ws_from_elem _ _ _ Hc) as [->|H]; [done|].
  apply strip_elem in H. by apply (proj1 (forallb_forall _ _) Hx).
Qed.

(** Text that is already trimmed, single-spaced and ASCII is left alone. *)
Lemma clean_body_fix s :
  head_ok s -> last_ok s -> spaced false s = true -> forallb isascii s = true ->
  clean_body s = s.
Proof.
  intros Hh Hl Hs Ha. rewrite clean_body_of_ascii by done.
  rewrite strip_fix by done. by apply spaced_fix.
Qed.

Lemma truncate_fix s :
  head_ok s -> last_ok s -> spaced false s = true -> forallb isascii s = true ->
  let r := truncate s in
  head_ok r /\ last_ok r /\ spaced false r = true /\ forallb isascii r = true
  /\ truncate r = r.
Proof.
  intros Hh Hl Hs Ha. unfold truncate.
  destruct (200 <? length s)%nat eqn:E; simpl.
  - apply Nat.ltb_lt in E.
    assert (Hlen : length (take 200 s ++ ellipsis) = 203%nat).
    { rewrite length_app, length_take. change (length ellipsis) with 3%nat. lia. }
    split; [|split; [|split; [|split]]].
    + destruct s as [|c s]; [simpl in E; lia|]. exact Hh.
    + by apply last_ok_app.
    + apply spaced_app_nonws; [by apply spaced_take|done].
    + rewrite forallb_app. apply andb_true_intro. split; [|done].
      apply forallb_forall. intros c Hc.
      apply (proj1 (forallb_forall _ _) Ha).
      rewrite <- (take_drop 200 s). apply in_app_iff. by left.
    + rewrite Hlen. simpl (200 <? 203)%nat. cbv iota.
      rewrite take_app_le by (rewrite length_take; lia).
      rewrite take_take. by rewrite Nat.min_id.
  - by rewrite E.
Qed.

Lemma clean_body_shape x :
  forallb isascii x = true ->
  let t := clean_body x in
  head_ok t /\ last_ok t /\ spaced false t = true /\ forallb isascii t = true.
Proof.
  intros Hx. simpl. split; [|split; [|split]].
  - rewrite clean_body_of_ascii by done.
    apply sub_ws_from_head_ok, strip_head_ok.
  - rewrite clean_body_of_ascii by done.
    apply sub_ws_from_last_ok, strip_last_ok.
  - rewrite clean_body_of_ascii by done. apply sub_ws_from_spaced.
  - apply sub_non_ascii_ascii.
Qed.

Lemma clean_text_some t : clean_text (Some t) = truncate (clean_body t).
Proof. by destruct t. Qed.

End CleanText.

(** C5.  The string returned by [clean_text] is never longer than 203
    characters; when the cleaned text is longer than 200 characters the
    result is its first 200 characters followed by the three-character
    ellipsis, and otherwise it is the cleaned text itself. *)
Theorem clean_text_length_bound (text : option pystr) :
  let cleaned := match text with Some t => clean_body t | None => [] end in
  (length (clean_text text) <= 203)%nat
  /\ ((200 < length cleaned)%nat ->
      clean_text text = take 200 cleaned ++ ellipsis
      /\ length (clean_text text) = 203%nat)
  /\ ((length cleaned <= 200)%nat -> clean_text text = cleaned).
Proof.
  destruct text as [t|]; cbv zeta.
  - rewrite clean_text_some. split; [apply truncate_length|].
    unfold truncate. split; intros H.
    + apply Nat.ltb_lt in H as H'. rewrite H'. split; [done|].
      rewrite length_app, length_take. change (length ellipsis) with 3%nat. lia.
    + apply Nat.ltb_ge in H. by rewrite H.
  - simpl. split; [lia|]. split; [lia|done].
Qed.

Lemma clean_text_length_bound_witness :
  clean_text (Some (repeat 97 201)) = repeat 97 200 ++ ellipsis
  /\ length (clean_text (Some (repeat 97 201))) = 203%nat.
Proof.
  apply (proj1 (proj2 (clean_text_length_bound (Some (repeat 97 201))))).
  vm_compute. lia.
Defined.

(** C6 fails as stated: the control character U+0007 is not printable and
    [clean_text] keeps it. *)
Lemma clean_text_keeps_control_characters :
  clean_text (Some [97; 7; 98]) = [97; 7; 98]
  /\ forallb PyStr.isprintable_ascii (clean_text (Some [97; 7; 98])) = false.
Proof. split; reflexivity. Qed.

(** On a text that holds ASCII characters only, cleaning twice gives what
    cleaning once gives. *)
Theorem clean_text_idempotent_ascii (x : pystr) :
  forallb PyStr.isascii x = true ->
  clean_text (Some (clean_text (Some x))) = clean_text (Some x).
Proof.
  intros Hx. rewrite !clean_text_some.
  destruct (clean_body_shape x Hx) as (Hh & Hl & Hs & Ha).
  destruct (truncate_fix _ Hh Hl Hs Ha) as (Hh' & Hl' & Hs' & Ha' & Hfix).
  rewrite (clean_body_fix _ Hh' Hl' Hs' Ha'). exact Hfix.
Qed.

Lemma clean_text_idempotent_ascii_witness :
  clean_text (Some (clean_text (Some (py "  Metro   rail  "))))
  = clean_text (Some (py "  Metro   rail  ")).
Proof. apply (clean_text_idempotent_ascii (py "  Metro   rail  ")). reflexivity. Defined.

(** C3.  Cleaning is not idempotent in the code: whitespace is collapsed
    and trimmed before the characters outside ASCII are deleted, so in
    [a é b] the spaces around the deleted [é] stay next to each other, and
    a second cleaning collapses them. *)
Lemma clean_text_not_idempotent :
  clean_text (Some (py "a " ++ [233] ++ py " b")) = py "a  b"
  /\ clean_text (Some (clean_text (Some (py "a " ++ [233] ++ py " b")))) = py "a b"
  /\ clean_text (Some (clean_text (Some (py "a " ++ [233] ++ py " b"))))
     <> clean_text (Some (py "a " ++ [233] ++ py " b")).
Proof. split; [reflexivity|]. split; [reflexivity|]. vm_compute. discriminate. Qed.

(** ** Substring tests *)

Section Substrings.
Import PyStr.

Lemma startswith_spec s p :
  startswith s p = true <-> exists post, s = p ++ post.
Proof.
  revert s. induction p as [|a p IH]; intros s; simpl.
  - split; [intros _; by exists s|done].
  - destruct s as [|b s].
    + split; [done|]. intros [post H]. discriminate.
    + rewrite andb_true_iff, N.eqb_eq, IH. split.
      * intros [-> [post ->]]. by exists post.
      * intros [post H]. simpl in H. injection H as -> ->.
        split; [done|by exists post].
Qed.

Lemma contains_spec s needle :
  contains s needle = true <-> occurs_in needle s.
Proof.
  induction s as [|c s IH]; simpl.
  - rewrite orb_false_r, startswith_spec. split.
    + intros [post H]. by exists [], post.
    + intros (pre & post & H). destruct pre; [by exists post|discriminate].
  - rewrite orb_true_iff, IH, startswith_spec. split.
    + intros [[post H]|(pre & post & H)].
      * by exists [], post.
      * exists (c :: pre), post. simpl. by rewrite H.
    + intros (pre & post & H). destruct pre as [|a pre]; simpl in H.
      * left. by exists post.
      * right. injection H as -> ->. by exists pre, post.
Qed.

Lemma any_in_spec keywords t :
  any_in keywords t = true <-> rule_fires keywords t.
Proof.
  unfold any_in, rule_fires. rewrite existsb_exists.
  split; intros (k & Hk & H); exists k; (split; [done|]); by apply contains_spec.
Qed.

Lemma first_match_chosen rules t : chosen rules t (first_match rules t).
Proof.
  induction rules as [|[label keywords] rules IH]; simpl.
  - constructor.
  - destruct (any_in keywords t) eqn:E.
    + apply chosen_first. by apply any_in_spec.
    + apply chosen_next; [|done]. rewrite <- any_in_spec. by rewrite E.
Qed.

Lemma chosen_functional rules t l1 l2 :
  chosen rules t l1 -> chosen rules t l2 -> l1 = l2.
Proof.
  induction 1; inversion 1; subst; try done. by apply IHchosen.
Qed.

Lemma first_match_label t : In (first_match priority_rules t) category_labels.
Proof.
  unfold priority_rules, first_match.
  repeat (destruct (any_in _ t); [vm_compute; tauto|]).
  vm_compute; tauto.
Qed.

End Substrings.

(** ** The category dictionary *)

Section Buckets.

Lemma dict_append_keys k h (d : buckets) :
  List.map fst (dict_append k h d) = List.map fst d.
Proof.
  induction d as [|[k0 items] d IH]; simpl; [done|].
  destruct (decide (k0 = k)); simpl; [done|]. by rewrite IH.
Qed.

Lemma dict_get_append c k h (d : buckets) :
  In k (List.map fst d) ->
  dict_get c (dict_append k h d)
  = dict_get c d ++ (if decide (c = k) then [h] else []).
Proof.
  induction d as [|[k0 items] d IH]; simpl; [done|].
  intros Hk. destruct (decide (k0 = k)) as [->|Hne]; simpl.
  - destruct (decide (k = c)) as [->|Hc].
    + by rewrite decide_True.
    + rewrite decide_False by congruence. by rewrite app_nil_r.
  - destruct (decide (k0 = c)) as [->|Hc].
    + rewrite decide_False by congruence. by rewrite app_nil_r.
    + apply IH. destruct Hk as [Hk|Hk]; [done|exact Hk].
Qed.

Lemma dict_append_perm k h (d : buckets) :
  In k (List.map fst d) ->
  Permutation (concat (List.map snd (dict_append k h d)))
              (h :: concat (List.map snd d)).
Proof.
  induction d as [|[k0 items] d IH]; simpl; [done|].
  intros Hk. destruct (decide (k0 = k)) as [->|Hne]; simpl.
  - rewrite <- app_assoc. simpl.
    by rewrite <- Permutation_middle.
  - destruct Hk as [Hk|Hk]; [done|].
    rewrite (IH Hk). by rewrite Permutation_middle.
Qed.

Lemma dict_append_sublists k h (d : buckets) (seen : list Headline) :
  Forall (fun kv => sublist (snd kv) seen) d ->
  Forall (fun kv => sublist (snd kv) (seen ++ [h])) (dict_append k h d).
Proof.
  induction 1 as [|[k0 items] d Hx Hd IH]; simpl; [constructor|].
  destruct (decide (k0 = k)); constructor; simpl in *.
  - by apply sublist_app.
  - eapply Forall_impl; [exact Hd|]. intros kv Hkv. by apply sublist_inserts_r.
  - by apply sublist_inserts_r.
  - exact IH.
Qed.

(** A dictionary with distinct keys is the table of its lookups. *)
Lemma dict_table (d : buckets) :
  NoDup (List.map fst d) ->
  d = List.map (fun c => (c, dict_get c d)) (List.map fst d).
Proof.
  induction d as [|[k0 items] d IH]; simpl; [done|].
  intros Hnd. inversion Hnd as [|? ? Hk0 Hnd']; subst.
  rewrite decide_True by done. f_equal.
  rewrite (IH Hnd') at 1. apply map_ext_in. intros c Hc.
  rewrite decide_False; [done|]. intros ->. apply Hk0.
  by apply list_elem_of_In.
Qed.

Lemma dict_get_init c : dict_get c categories_init = [].
Proof.
  unfold categories_init. simpl. by repeat (destruct (decide _); [done|]).
Qed.

Lemma category_labels_NoDup : NoDup category_labels.
Proof. refine (bool_decide_unpack (NoDup category_labels) _). vm_compute. exact I. Qed.

End Buckets.

(** ** [categorize_headlines] *)

Section Categorization.

Variable unicode_lower : pystr -> pystr.

Let categorize := categorize_headlines unicode_lower.
Let step := categorize_step unicode_lower.
Let cat := category_of unicode_lower.

(** The [if]/[elif] chain of the loop body appends to the bucket of the
    first rule set that fires. *)
Lemma categorize_step_first_match (categories : buckets) h :
  step categories h = dict_append (cat h) h categories.
Proof.
  unfold step, cat, categorize_step, category_of, priority_rules, first_match.
  by repeat (destruct (any_in _ _); [done|]).
Qed.

Lemma categorize_snoc hs h :
  categorize (hs ++ [h]) = dict_append (cat h) h (categorize hs).
Proof.
  unfold categorize, categorize_headlines. rewrite fold_left_app. simpl.
  apply categorize_step_first_match.
Qed.

Lemma categorize_keys hs : List.map fst (categorize hs) = category_labels.
Proof.
  induction hs as [|h hs IH] using rev_ind; [done|].
  by rewrite categorize_snoc, dict_append_keys.
Qed.

Lemma cat_label h : In (cat h) (List.map fst (categorize_headlines unicode_lower []))
                    /\ In (cat h) category_labels.
Proof. split; apply first_match_label. Qed.

Lemma dict_get_categorize c hs :
  dict_get c (categorize hs) = filter (fun h => cat h = c) hs.
Proof.
  induction hs as [|h hs IH] using rev_ind.
  - apply dict_get_init.
  - rewrite categorize_snoc, dict_get_append.
    + rewrite IH, filter_app, filter_cons, filter_nil.
      destruct (decide (c = cat h)) as [->|Hne].
      * by rewrite decide_True.
      * by rewrite decide_False by congruence.
    + rewrite categorize_keys. apply first_match_label.
Qed.

Lemma categorize_table hs :
  categorize hs
  = List.map (fun c => (c, filter (fun h => cat h = c) hs)) category_labels.
Proof.
  rewrite (dict_table (categorize hs)).
  - rewrite categorize_keys. apply map_ext. intros c.
    by rewrite dict_get_categorize.
  - rewrite categorize_keys. apply category_labels_NoDup.
Qed.

Lemma categorize_perm hs :
  Permutation (concat (List.map snd (categorize hs))) hs.
Proof.
  induction hs as [|h hs IH] using rev_ind; [done|].
  rewrite categorize_snoc, dict_append_perm.
  - rewrite IH. apply Permutation_cons_append.
  - rewrite categorize_keys. apply first_match_label.
Qed.

Lemma categorize_sublists hs :
  Forall (fun kv => sublist (snd kv) hs) (categorize hs).
Proof.
  induction hs as [|h hs IH] using rev_ind.
  - unfold categorize, categorize_headlines, categories_init. simpl.
    repeat constructor.
  - rewrite categorize_snoc. by apply dict_append_sublists.
Qed.

End Categorization.

Lemma length_buckets (d : buckets) :
  length (concat (List.map snd d))
  = list_sum (List.map (fun kv => length (snd kv)) d).
Proof.
  induction d as [|[k items] d IH]; simpl; [done|].
  by rewrite length_app, IH.
Qed.

Lemma lookup_table {B : Type} (f : pystr -> B) (labels : list pystr) i c b :
  List.map (fun c => (c, f c)) labels !! i = Some (c, b) ->
  labels !! i = Some c /\ b = f c.
Proof.
  revert i. induction labels as [|c0 labels IH]; intros [|i]; simpl; try done.
  - intros [= -> ->]. done.
  - apply IH.
Qed.

(** C1.  Every headline goes to the bucket of the first rule set, in the
    order Energy & Oil, Construction & Infrastructure, Tenders & Contracts,
    Heavy Equipment, Technology & Innovation, one of whose keywords occurs
    in the lower-cased title, and to Other News when no keyword occurs; the
    title [ONGC signs tender for gas pipeline] goes to Energy & Oil although
    the keyword [tender] occurs in it too. *)
Theorem categorize_headlines_priority
    (unicode_lower : pystr -> pystr) (hs : list Headline) (h : Headline) :
  chosen priority_rules (lower unicode_lower (title h))
         (category_of unicode_lower h)
  /\ categorize_headlines unicode_lower (hs ++ [h])
     = dict_append (category_of unicode_lower h) h
                   (categorize_headlines unicode_lower hs)
  /\ (forall c,
        dict_get c (categorize_headlines unicode_lower hs)
        = filter (fun h => category_of unicode_lower h = c) hs)
  /\ (lower unicode_lower (title ongc_headline)
        = py "ongc signs tender for gas pipeline"
      /\ rule_fires tenders (lower unicode_lower (title ongc_headline))
      /\ categorize_headlines unicode_lower [ongc_headline]
         = [ (ENERGY_OIL, [ongc_headline]); (CONSTRUCTION, []); (TENDERS, []);
             (TECHNOLOGY, []); (HEAVY_EQUIPMENT, []); (OTHER_NEWS, []) ]).
Proof.
  split; [apply first_match_chosen|].
  split; [apply categorize_snoc|].
  split; [intros c; apply dict_get_categorize|].
  split; [reflexivity|]. split; [|reflexivity].
  apply any_in_spec. reflexivity.
Qed.

(** C2.  The buckets partition the input: taken together they hold the
    headlines of the input, each occurrence once, so the bucket lengths add
    up to the length of the input; two different buckets share no headline;
    every headline of the input is in a bucket. *)
Theorem categorize_headlines_partition
    (unicode_lower : pystr -> pystr) (hs : list Headline) :
  let categories := categorize_headlines unicode_lower hs in
  Permutation (concat (List.map snd categories)) hs
  /\ list_sum (List.map (fun kv => length (snd kv)) categories) = length hs
  /\ (forall i j ci bi cj bj h,
        categories !! i = Some (ci, bi) -> categories !! j = Some (cj, bj) ->
        In h bi -> In h bj -> i = j)
  /\ (forall h, In h hs ->
        exists i c b, categories !! i = Some (c, b) /\ In h b).
Proof.
  cbv zeta. split; [apply categorize_perm|].
  split.
  { rewrite <- length_buckets. apply Permutation_length, categorize_perm. }
  split.
  - intros i j ci bi cj bj h Hi Hj Hbi Hbj.
    rewrite categorize_table in Hi, Hj.
    apply lookup_table in Hi as [Hi ->], Hj as [Hj ->].
    apply list_elem_of_In, list_elem_of_filter in Hbi as [Hci _].
    apply list_elem_of_In, list_elem_of_filter in Hbj as [Hcj _].
    subst ci cj.
    exact (NoDup_lookup _ _ _ _ category_labels_NoDup Hi Hj).
  - intros h Hh.
    assert (Hin : In h (concat (List.map snd (categorize_headlines unicode_lower hs)))).
    { apply list_elem_of_In. rewrite categorize_perm. by apply list_elem_of_In. }
    apply in_concat in Hin as (b & Hb & Hhb).
    apply in_map_iff in Hb as ([c b'] & <- & Hcb).
    apply list_elem_of_In, list_elem_of_lookup in Hcb as [i Hi].
    by exists i, c, b'.
Qed.

Lemma categorize_headlines_partition_witness :
  list_sum (List.map (fun kv => length (snd kv))
              (categorize_headlines (fun s => s) [ongc_headline; crane_headline]))
  = 2%nat
  /\ exists i c b,
       categorize_headlines (fun s => s) [ongc_headline; crane_headline] !! i
       = Some (c, b) /\ In crane_headline b.
Proof.
  split.
  - apply (proj1 (proj2 (categorize_headlines_partition
                           (fun s => s) [ongc_headline; crane_headline]))).
  - apply (proj2 (proj2 (proj2 (categorize_headlines_partition
                           (fun s => s) [ongc_headline; crane_headline])))).
    simpl. tauto.
Defined.

(** C10.  Each bucket is a subsequence of the input: categorization keeps
    the headlines of a bucket in the order they have in the input. *)
Theorem categorize_headlines_keeps_order
    (unicode_lower : pystr -> pystr) (hs : list Headline) :
  Forall (fun kv => sublist (snd kv) hs) (categorize_headlines unicode_lower hs)
  /\ (forall c, sublist (dict_get c (categorize_headlines unicode_lower hs)) hs).
Proof.
  split; [apply categorize_sublists|].
  intros c. rewrite dict_get_categorize. apply sublist_filter.
Qed.

(** ** The fallback digest *)

Section FallbackFacts.

Variable list_of_set : list pystr -> list pystr.

Lemma fold_left_sections (g : pystr * list Headline -> pystr)
    (categorized : buckets) (init : pystr) :
  fold_left (fun digest kv => digest ++ g kv) categorized init
  = init ++ concat (List.map g categorized).
Proof.
  revert init. induction categorized as [|kv d IH]; intros init; simpl.
  - by rewrite app_nil_r.
  - rewrite IH. by rewrite <- app_assoc.
Qed.

(** The digest is the header, the sections of the buckets, the "no news"
    line when no bucket has an item, and the signature. *)
Lemma create_fallback_digest_layout now (categorized : buckets) :
  create_fallback_digest list_of_set now categorized
  = digest_header now
    ++ concat (List.map (fun kv => bucket_section list_of_set (fst kv) (snd kv))
                        categorized)
    ++ (if no_items categorized then no_news_line ++ [LF; LF] else [])
    ++ signature.
Proof.
  unfold create_fallback_digest.
  rewrite (fold_left_sections
             (fun kv => bucket_section list_of_set (fst kv) (snd kv))).
  destruct (no_items categorized); rewrite <- ?app_assoc; [done|].
  by rewrite app_nil_l.
Qed.

Lemma no_items_spec (categorized : buckets) :
  no_items categorized = true <-> Forall (fun kv => snd kv = []) categorized.
Proof.
  unfold no_items. rewrite forallb_forall, Forall_forall.
  split; intros H kv Hkv.
  - apply list_elem_of_In in Hkv. specialize (H kv Hkv). by destruct (snd kv).
  - apply list_elem_of_In in Hkv. by rewrite (H kv Hkv).
Qed.

Lemma empty_sections (categorized : buckets) :
  Forall (fun kv => snd kv = []) categorized ->
  concat (List.map (fun kv => bucket_section list_of_set (fst kv) (snd kv))
                   categorized) = [].
Proof.
  induction 1 as [|[k items] d Hx Hd IH]; simpl in *; [done|].
  by rewrite Hx, IH.
Qed.



Lemma occurs_in_elem needle s c : occurs_in needle s -> In c needle -> In c s.
Proof.
  intros (pre & post & ->) Hc. rewrite !in_app_iff. auto.
Qed.

End FallbackFacts.

(** C7.  When every bucket is empty the fallback digest is the header, the
    "no infrastructure news" line and the signature line, with nothing in
    between: it holds both lines and no category heading. *)
Theorem create_fallback_digest_no_news
    (list_of_set : list pystr -> list pystr) (now : Clock)
    (categorized : buckets) :
  Forall (fun kv => snd kv = []) categorized ->
  let digest := create_fallback_digest list_of_set now categorized in
  digest = digest_header now ++ no_news_line ++ [LF; LF] ++ signature
  /\ occurs_in no_news_line digest
  /\ occurs_in signature_line digest
  /\ (~ In 58 (date_only now) ->
      forall category, ~ occurs_in (category_heading category) digest).
Proof.
  intros Hempty. cbv zeta.
  assert (Heq : create_fallback_digest list_of_set now categorized
                = digest_header now ++ no_news_line ++ [LF; LF] ++ signature).
  { rewrite create_fallback_digest_layout, empty_sections by done.
    rewrite (proj2 (no_items_spec _) Hempty). by rewrite <- !app_assoc. }
  rewrite Heq. split; [done|]. split; [|split].
  - by exists (digest_header now), ([LF; LF] ++ signature).
  - exists (digest_header now ++ no_news_line ++ [LF; LF] ++ [ROCKET] ++ py " "), [].
    rewrite app_nil_r, <- !app_assoc. reflexivity.
  - intros Hdate category Hocc.
    assert (Hcolon : In 58 (category_heading category)).
    { unfold category_heading. rewrite !in_app_iff. right. right. left.
      simpl. tauto. }
    pose proof (occurs_in_elem _ _ _ Hocc Hcolon) as Hin.
    unfold digest_header in Hin. rewrite !in_app_iff in Hin.
    assert (Hg : ~ In 58 (greeting now)).
    { unfold greeting. destruct (hour now <? 12); vm_compute;
        intros H; repeat (destruct H as [H|H]; [discriminate H|]); exact H. }
    assert (Hfix : forall l : pystr,
               forallb (fun c => negb (c =? 58)) l = true -> ~ In 58 l).
    { intros l Hl H. apply (proj1 (forallb_forall _ _) Hl) in H. done. }
    destruct Hin as [[H|[H|[H|[H|[H|[H|[H|[H|[H|H]]]]]]]]]|[H|[H|H]]];
      first [by apply Hdate | by apply Hg
            | revert H; by apply Hfix ].
Qed.

Lemma create_fallback_digest_no_news_witness :
  create_fallback_digest first_occurrences noon
    (categorize_headlines (fun s => s) [])
  = digest_header noon ++ no_news_line ++ [LF; LF] ++ signature
  /\ forall category,
       ~ occurs_in (category_heading category)
           (create_fallback_digest first_occurrences noon
              (categorize_headlines (fun s => s) [])).
Proof.
  assert (Hempty : Forall (fun kv : pystr * list Headline => snd kv = [])
                          (categorize_headlines (fun s => s) [])).
  { repeat constructor. }
  split.
  - apply (create_fallback_digest_no_news first_occurrences noon _ Hempty).
  - apply (create_fallback_digest_no_news first_occurrences noon _ Hempty).
    vm_compute. intros H.
    repeat (destruct H as [H|H]; [discriminate H|]). exact H.
Defined.

(** ** Enumerations of a set of source labels *)

Section Enumerations.

Lemma first_occurrences_In xs x : In x (first_occurrences xs) <-> In x xs.
Proof.
  induction xs as [|y xs IH]; simpl; [done|].
  rewrite filter_In, IH, negb_true_iff, bool_decide_eq_false.
  destruct (decide (x = y)) as [->|Hne]; [tauto|].
  split; [tauto|]. intros [H|H]; [by symmetry in H|tauto].
Qed.

Lemma first_occurrences_NoDup xs : NoDup (first_occurrences xs).
Proof.
  induction xs as [|y xs IH]; simpl; [constructor|].
  constructor.
  - rewrite list_elem_of_In, filter_In, negb_true_iff, bool_decide_eq_false.
    tauto.
  - apply NoDup_ListNoDup, List.NoDup_filter, NoDup_ListNoDup, IH.
Qed.

Lemma first_occurrences_enumeration : set_enumeration first_occurrences.
Proof.
  intros xs. split; [apply first_occurrences_NoDup|].
  intros x. apply first_occurrences_In.
Qed.

Lemma last_first_enumeration : set_enumeration last_first.
Proof.
  intros xs. unfold last_first. split.
  - apply NoDup_ListNoDup, List.NoDup_rev, NoDup_ListNoDup,
      first_occurrences_NoDup.
  - intros x. rewrite <- in_rev. apply first_occurrences_In.
Qed.

(** A set with one element has one enumeration. *)
Lemma enumeration_singleton (f : list pystr -> list pystr) xs s :
  set_enumeration f -> xs <> [] -> (forall x, In x xs -> x = s) -> f xs = [s].
Proof.
  intros Hf Hne Hall. destruct (Hf xs) as [Hnd Hin].
  assert (Hs : In s xs).
  { destruct xs as [|x xs]; [done|]. left. apply Hall. by left. }
  assert (Hall' : forall x, In x (f xs) -> x = s).
  { intros x Hx. by apply Hall, Hin. }
  apply Hin in Hs.
  destruct (f xs) as [|a [|b l]]; [done| |].
  - f_equal. apply Hall'. by left.
  - exfalso. inversion Hnd as [|? ? Hab _]; subst. apply Hab.
    rewrite (Hall' a) by (by left). rewrite (Hall' b) by (right; by left).
    by left.
Qed.

Lemma enumeration_take2 (f : list pystr -> list pystr) xs :
  set_enumeration f ->
  let labels := take 2 (f xs) in
  NoDup labels /\ (length labels <= 2)%nat
  /\ (forall x, In x labels -> In x xs)
  /\ (xs <> [] -> labels <> []).
Proof.
  intros Hf. destruct (Hf xs) as [Hnd Hin]. cbv zeta.
  split; [|split; [|split]].
  - eapply sublist_NoDup; [exact Hnd|apply sublist_take].
  - rewrite length_take. lia.
  - intros x Hx. apply Hin. rewrite <- (take_drop 2 (f xs)).
    apply in_app_iff. by left.
  - intros Hne. destruct xs as [|x xs]; [done|].
    assert (Hx : In x (f (x :: xs))) by (apply Hin; by left).
    destruct (f (x :: xs)); [done|]. done.
Qed.

End Enumerations.

(** C9, as the code has it.  The summary of a non-empty bucket gives the
    number of its headlines and one or two distinct source labels of the
    bucket, the first two of the enumeration of the set of its source
    labels; when the headlines of every bucket come from one source, the
    digest does not depend on the enumeration, so that two runs on the same
    input at the same time give the same text. *)
Theorem create_fallback_digest_deterministic_single_source
    (f g : list pystr -> list pystr) (now : Clock) (categorized : buckets) :
  set_enumeration f -> set_enumeration g ->
  (Forall (fun kv => forall i j, In i (snd kv) -> In j (snd kv) ->
                                 source i = source j) categorized ->
   create_fallback_digest f now categorized
   = create_fallback_digest g now categorized)
  /\ (forall category item items,
        let labels := take 2 (f (List.map source (item :: items))) in
        bucket_section f category (item :: items)
        = category_heading category
          ++ PyStr.of_nat (S (length items)) ++ py " key updates from "
          ++ PyStr.join (py ", ") labels ++ py "." ++ [LF; LF]
        /\ NoDup labels /\ (1 <= length labels <= 2)%nat
        /\ (forall x, In x labels -> In x (List.map source (item :: items)))).
Proof.
  intros Hf Hg. split.
  - intros Hsame. rewrite !create_fallback_digest_layout. do 2 f_equal.
    induction Hsame as [|[k items] d Hx Hd IH]; simpl in *; [done|].
    rewrite IH. f_equal.
    destruct items as [|item items]; [done|].
    unfold bucket_section.
    assert (Hone : forall x, In x (List.map source (item :: items)) ->
                             x = source item).
    { intros x Hin. apply in_map_iff in Hin as (j & <- & Hj).
      apply Hx; [exact Hj|by left]. }
    rewrite (enumeration_singleton f _ (source item) Hf) by done.
    by rewrite (enumeration_singleton g _ (source item) Hg) by done.
  - intros category item items. cbv zeta.
    destruct (enumeration_take2 f (List.map source (item :: items)) Hf)
      as (Hnd & Hlen & Hin & Hne).
    split; [reflexivity|]. split; [exact Hnd|]. split; [|exact Hin].
    split; [|exact Hlen].
    destruct (take 2 (f (List.map source (item :: items)))) as [|l ls] eqn:E.
    + exfalso. by apply Hne.
    + simpl. lia.
Qed.

Lemma create_fallback_digest_deterministic_single_source_witness :
  create_fallback_digest first_occurrences noon
    (categorize_headlines (fun s => s) [ongc_headline; crane_headline])
  = create_fallback_digest last_first noon
      (categorize_headlines (fun s => s) [ongc_headline; crane_headline]).
Proof.
  apply (create_fallback_digest_deterministic_single_source
           first_occurrences last_first noon _
           first_occurrences_enumeration last_first_enumeration).
  repeat constructor; simpl; intros i j Hi Hj;
    repeat (destruct Hi as [<-|Hi]); try (destruct Hi);
    repeat (destruct Hj as [<-|Hj]); try (destruct Hj); reflexivity.
Defined.

(** C9 fails as stated: the sources of a bucket are listed in the order in
    which the set of labels is enumerated, and the input does not fix that
    order.  Both orders below are enumerations of the set; the digests for
    a bucket with the sources [ET Infra] and [ONGC] differ. *)
Lemma create_fallback_digest_depends_on_set_order :
  set_enumeration first_occurrences /\ set_enumeration last_first
  /\ PyStr.contains
       (create_fallback_digest first_occurrences noon two_source_buckets)
       (py "2 key updates from ET Infra, ONGC.") = true
  /\ PyStr.contains
       (create_fallback_digest last_first noon two_source_buckets)
       (py "2 key updates from ONGC, ET Infra.") = true
  /\ create_fallback_digest first_occurrences noon two_source_buckets
     <> create_fallback_digest last_first noon two_source_buckets.
Proof.
  split; [apply first_occurrences_enumeration|].
  split; [apply last_first_enumeration|].
  split; [vm_compute; reflexivity|]. split; [vm_compute; reflexivity|].
  vm_compute. discriminate.
Qed.




(** ** [str.replace] *)

Section Replace.
Import PyStr.

Lemma replace_from_skip (old new : pystr) k s :
  replace_from old new k s = replace_from old new O (drop k s).
Proof.
  revert s. induction k as [|k IH]; intros s; [by rewrite drop_0|].
  destruct s as [|c s]; simpl; [done|]. apply IH.
Qed.

(** An occurrence at the head is replaced and the scan goes on behind it. *)
Lemma replace_from_match (old new : pystr) rest :
  old <> [] ->
  replace_from old new O (old ++ rest) = new ++ replace_from old new O rest.
Proof.
  destruct old as [|a o]; [done|]. intros _.
  change ((a :: o) ++ rest) with (a :: (o ++ rest)).
  cbn [replace_from].
  assert (Hs : startswith (a :: o ++ rest) (a :: o) = true).
  { apply startswith_spec. by exists rest. }
  rewrite Hs. f_equal. rewrite replace_from_skip. simpl.
  by rewrite drop_app_length.
Qed.

Variables (old new : pystr).
Hypothesis old_nonempty : old <> [].

Local Abbreviation R := (replace_from old new O).

Lemma replace_nonempty s : replace s old new = R s.
Proof using old_nonempty. unfold replace. clear -old_nonempty. by destruct old. Qed.

(** Without an occurrence at the head the first character is kept. *)
Lemma replace_from_keep c s :
  startswith (c :: s) old = false -> R (c :: s) = c :: R s.
Proof. simpl. by intros ->. Qed.

Lemma replace_from_app pre s :
  no_straddle old pre s -> R (pre ++ s) = R pre ++ R s.
Proof.
  remember (length pre) as n eqn:Hn. revert pre Hn.
  induction n as [n IH] using lt_wf_ind. intros pre Hn Hns.
  destruct pre as [|c p]; [done|].
  destruct (startswith ((c :: p) ++ s) old) eqn:E.
  - assert (Hp : startswith (c :: p) old = true).
    { by apply (Hns [] (c :: p)). }
    apply startswith_spec in Hp as [r Hr]. rewrite Hr.
    rewrite <- app_assoc, !replace_from_match, <- app_assoc by done. f_equal.
    assert (Hlen : (length r < n)%nat).
    { subst n. rewrite Hr, length_app. destruct old; [done|]. simpl. lia. }
    apply (IH _ Hlen r eq_refl).
    intros u v Hu Hv. apply (Hns (old ++ u) v); [|done].
    by rewrite Hr, Hu, app_assoc.
  - assert (Hp : startswith (c :: p) old = false).
    { destruct (startswith (c :: p) old) eqn:E'; [|done].
      apply startswith_spec in E' as [r Hr].
      assert (startswith ((c :: p) ++ s) old = true); [|congruence].
      apply startswith_spec. exists (r ++ s). by rewrite Hr, app_assoc. }
    change ((c :: p) ++ s) with (c :: (p ++ s)) in *.
    rewrite (replace_from_keep _ _ E), (replace_from_keep _ _ Hp). simpl.
    f_equal. assert (Hlen : (length p < n)%nat) by (subst n; simpl; lia).
    apply (IH _ Hlen p eq_refl).
    intros u v Hu Hv. apply (Hns (c :: u) v); [|done]. by rewrite Hu.
Qed.

(** When the text behind the boundary starts with a character that [old]
    has at most at its head, no occurrence lies across the boundary. *)
Lemma no_straddle_head pre x s :
  ~ In x (tail old) -> no_straddle old pre (x :: s).
Proof.
  intros Hx u v _ Hv Hs.
  apply startswith_spec in Hs as [rest Hs].
  apply app_eq_inv in Hs as [(k & Hk & _)|(k & Hk & Hk')].
  - apply startswith_spec. by exists k.
  - destruct k as [|y k].
    + rewrite app_nil_r in Hk. apply startswith_spec. exists [].
      by rewrite app_nil_r.
    + exfalso. apply Hx. simpl in Hk'. injection Hk' as -> _.
      destruct v as [|a v]; [done|]. rewrite Hk. simpl.
      apply in_app_iff. right. by left.
Qed.

Lemma no_straddle_overhang frag s :
  overhang old frag = false -> no_straddle old frag s.
Proof.
  intros Ho u v Hu Hv Hs. subst frag.
  assert (Hov : overhang old v = false).
  { clear Hs Hv. induction u as [|a u IH]; [done|].
    cbn [overhang app] in Ho. apply orb_false_iff in Ho as [_ Ho]. by apply IH. }
  apply startswith_spec in Hs as [rest Hs].
  apply app_eq_inv in Hs as [(k & Hk & _)|(k & Hk & Hk')].
  - apply startswith_spec. by exists k.
  - destruct k as [|y k].
    + rewrite app_nil_r in Hk. apply startswith_spec. exists [].
      by rewrite app_nil_r.
    + exfalso. destruct v as [|a v]; [done|].
      cbn [overhang] in Hov. apply orb_false_iff in Hov as [Hov _].
      apply andb_false_iff in Hov as [Hov|Hov].
      * assert (startswith old (a :: v) = true); [|congruence].
        apply startswith_spec. by exists (y :: k).
      * apply Nat.ltb_ge in Hov. rewrite Hk, length_app in Hov.
        simpl in Hov. lia.
Qed.

(** Replacement in a text around a fragment: the three parts are
    rewritten on their own. *)
Lemma replace_around pre x frag post :
  ~ In x (tail old) -> overhang old (x :: frag) = false ->
  replace (pre ++ (x :: frag) ++ post) old new
  = replace pre old new ++ replace (x :: frag) old new ++ replace post old new.
Proof.
  intros Hx Ho. rewrite !replace_nonempty.
  rewrite replace_from_app by (by apply no_straddle_head).
  f_equal. by apply replace_from_app, no_straddle_overhang.
Qed.

End Replace.

(** ** The dispatcher's rewriting *)

Section Dispatcher.
Import PyStr.

(** One [str.replace] of the chain, on a text around a known fragment. *)
Ltac replace_stage :=
  match goal with
  | |- context [replace (?pre ++ (?y :: ?f) ++ ?post) ?old ?new] =>
      rewrite (replace_around old new ltac:(discriminate) pre y f post
                 ltac:(vm_compute; intros H;
                       repeat (destruct H as [H|H]; [discriminate H|]);
                       exact H)
                 ltac:(vm_compute; reflexivity));
      let r := eval vm_compute in (replace (y :: f) old new) in
      change (replace (y :: f) old new) with r
  end.

(** C8, as the code has it.  In any message the fragment
    [<li>Foo</li><br>Bar] is sent as a bullet, [Foo], two newlines (one for
    [</li>], one for [<br>]) and [Bar]; the text before and the text after
    it are rewritten on their own. *)
Theorem clean_message_li_fragment (pre post : pystr) :
  clean_message (pre ++ li_fragment ++ post)
  = clean_message pre ++ li_fragment_sent ++ clean_message post.
Proof.
  unfold clean_message. cbv zeta.
  change li_fragment with (60 :: py "li>Foo</li><br>Bar").
  do 8 replace_stage.
  reflexivity.
Qed.

(** C8 fails as stated: the fragment comes out with two newlines before
    [Bar], and the expected text with a single newline is not part of the
    message that is sent. *)
Lemma clean_message_li_fragment_two_newlines :
  clean_message li_fragment = li_fragment_sent
  /\ clean_message li_fragment <> li_fragment_expected
  /\ contains (clean_message li_fragment) li_fragment_expected = false.
Proof.
  split; [vm_compute; reflexivity|].
  split; [vm_compute; discriminate|vm_compute; reflexivity].
Qed.

End Dispatcher.

(** ** Sample runs *)

Example replace_leftmost_first :
  PyStr.replace (py "aaa") (py "aa") (py "b") = py "ba".
Proof. reflexivity. Qed.

Example replace_empty_pattern :
  PyStr.replace (py "ab") [] (py "-") = py "-a-b-".
Proof. reflexivity. Qed.

Example clean_text_collapses :
  clean_text (Some (py "  Metro   rail  ")) = py "Metro rail".
Proof. reflexivity. Qed.

(** One Energy & Oil headline and one Heavy Equipment headline: two
    headings, each with the count 1 and the source of its headline. *)
Example fallback_two_buckets :
  create_fallback_digest first_occurrences noon
    (categorize_headlines (fun s => s) [ongc_headline; crane_headline])
  = digest_header noon
    ++ category_heading ENERGY_OIL ++ py "1 key updates from ET Infra." ++ [LF; LF]
    ++ category_heading HEAVY_EQUIPMENT ++ py "1 key updates from BEML." ++ [LF; LF]
    ++ signature.
Proof. vm_compute. reflexivity. Qed.

(** * Further properties of the program *)

(** ** More on [clean_text] *)

Section CleanTextMore.
Import PyStr.

Lemma lstrip_all_space s : forallb isspace s = true -> lstrip s = [].
Proof.
  induction s as [|c s IH]; simpl; [done|].
  intros H. apply andb_prop in H as [Hc Hs]. rewrite Hc. by apply IH.
Qed.

Lemma lstrip_keeps s c : In c s -> isspace c = false -> In c (lstrip s).
Proof.
  intros Hin Hc. induction s as [|a s IH]; simpl in *; [done|].
  destruct (isspace a) eqn:E; [|exact Hin].
  destruct Hin as [->|Hin]; [congruence|by apply IH].
Qed.

Lemma strip_keeps s c : In c s -> isspace c = false -> In c (strip s).
Proof.
  intros Hin Hc. unfold strip, rstrip. apply in_rev. rewrite rev_involutive.
  apply lstrip_keeps; [|done]. apply in_rev. rewrite rev_involutive.
  by apply lstrip_keeps.
Qed.

Lemma spaced_plain b s : spaced b s = true -> forallb plain s = true.
Proof.
  revert b. induction s as [|c s IH]; intros b; simpl; [done|].
  unfold plain at 1. destruct (isspace c); simpl.
  - intros H. apply andb_prop in H as [H Hs]. apply andb_prop in H as [_ Hc].
    rewrite Hc. by apply (IH true).
  - apply IH.
Qed.

Lemma forallb_filter (f g : N -> bool) (s : pystr) :
  forallb f s = true -> forallb f (List.filter g s) = true.
Proof.
  intros H. apply forallb_forall. intros c Hc. apply filter_In in Hc as [Hc _].
  by apply (proj1 (forallb_forall _ _) H).
Qed.

Lemma forallb_truncate (f : N -> bool) (s : pystr) :
  forallb f s = true -> forallb f ellipsis = true ->
  forallb f (truncate s) = true.
Proof.
  intros Hs He. apply forallb_forall. intros c Hc.
  destruct (truncate_elem _ _ Hc) as [H|H];
    [by apply (proj1 (forallb_forall _ _) Hs)
    |by apply (proj1 (forallb_forall _ _) He)].
Qed.

Lemma clean_char_ranges_spec c : clean_char c = clean_char_ranges c.
Proof.
  destruct (N.leb_spec c 127) as [Hc|Hc].
  - assert (Hall : forallb (fun n => Bool.eqb (clean_char (N.of_nat n))
                                              (clean_char_ranges (N.of_nat n)))
                           (seq 0 128) = true) by (vm_compute; reflexivity).
    rewrite <- (N2Nat.id c).
    apply Bool.eqb_prop, (proj1 (forallb_forall _ _) Hall), in_seq. lia.
  - unfold clean_char, clean_char_ranges, isascii.
    rewrite (proj2 (N.leb_gt c 127)) by done.
    rewrite (proj2 (N.leb_gt c 8)), (proj2 (N.leb_gt c 27)) by lia.
    by rewrite !andb_false_r.
Qed.

Lemma clean_text_some_clean_chars t :
  forallb clean_char (clean_text (Some t)) = true.
Proof.
  rewrite clean_text_some. apply forallb_truncate; [|reflexivity].
  apply forallb_forall. intros c Hc. unfold clean_char.
  apply andb_true_intro. split.
  - unfold clean_body in Hc.
    exact (proj1 (forallb_forall _ _) (sub_non_ascii_ascii _) c Hc).
  - assert (Hp : forallb plain (clean_body t) = true).
    { unfold clean_body, sub_non_ascii. apply forallb_filter.
      apply (spaced_plain false), sub_ws_from_spaced. }
    exact (proj1 (forallb_forall _ _) Hp c Hc).
Qed.

(** Between two letters a character of the cleaned alphabet stays. *)
Lemma clean_text_keeps_clean_char c :
  clean_char c = true -> clean_text (Some [97; c; 97]) = [97; c; 97].
Proof.
  unfold clean_char. intros H. apply andb_prop in H as [Ha Hp].
  rewrite clean_text_some, clean_body_fix; [reflexivity|done|done| |].
  - cbn [spaced]. change (isspace 97) with false. cbv iota.
    destruct (isspace c); [|done].
    simpl in Hp. rewrite Hp. reflexivity.
  - cbn [forallb]. rewrite Ha. reflexivity.
Qed.

End CleanTextMore.

(** C6, as the code has it.  Every character of the string returned by
    [clean_text] is an ASCII character, and it is no whitespace but the
    plain space: it lies in U+0000..U+0008, U+000E..U+001B or
    U+0020..U+007F, and each character of these ranges occurs in some
    returned string.  An empty or missing text gives the empty string. *)
Theorem clean_text_alphabet (text : option pystr) :
  forallb clean_char (clean_text text) = true
  /\ (forall c, clean_char c
                = (c <=? 8) || ((14 <=? c) && (c <=? 27))
                  || ((32 <=? c) && (c <=? 127)))
  /\ (forall c, clean_char c = true ->
                exists t, In c (clean_text (Some t)))
  /\ clean_text None = [] /\ clean_text (Some []) = [].
Proof.
  split; [|split; [|split; [|done]]].
  - destruct text as [t|]; [apply clean_text_some_clean_chars|done].
  - apply clean_char_ranges_spec.
  - intros c Hc. exists [97; c; 97].
    rewrite (clean_text_keeps_clean_char c Hc). right. by left.
Qed.

(** X20.  Cleaning twice gives what cleaning once gives whenever the text
    left by the two substitutions has no whitespace at its ends and only
    single spaces inside, whether or not the input is ASCII. *)
Theorem clean_text_idempotent_tidy (x : pystr) :
  head_ok (clean_body x) -> last_ok (clean_body x) ->
  spaced false (clean_body x) = true ->
  clean_text (Some (clean_text (Some x))) = clean_text (Some x).
Proof.
  intros Hh Hl Hs. rewrite !clean_text_some.
  assert (Ha : forallb PyStr.isascii (clean_body x) = true)
    by apply sub_non_ascii_ascii.
  destruct (truncate_fix _ Hh Hl Hs Ha) as (Hh' & Hl' & Hs' & Ha' & Hfix).
  rewrite (clean_body_fix _ Hh' Hl' Hs' Ha'). exact Hfix.
Qed.

Lemma clean_text_idempotent_tidy_witness :
  clean_text (Some (clean_text (Some (py "Caf" ++ [233] ++ py " metro "
                                        ++ [8377] ++ py "500cr"))))
  = clean_text (Some (py "Caf" ++ [233] ++ py " metro " ++ [8377] ++ py "500cr")).
Proof.
  apply (clean_text_idempotent_tidy
           (py "Caf" ++ [233] ++ py " metro " ++ [8377] ++ py "500cr"));
    reflexivity.
Defined.

(** X1.  A text that is made of whitespace only is cleaned to the empty
    string. *)
Theorem clean_text_blank (t : pystr) :
  forallb PyStr.isspace t = true -> clean_text (Some t) = [].
Proof.
  intros H. rewrite clean_text_some. unfold clean_body, PyStr.strip.
  rewrite (lstrip_all_space _ H). reflexivity.
Qed.

Lemma clean_text_blank_witness : clean_text (Some [32; 9; 10; 160; 8195]) = [].
Proof. apply (clean_text_blank [32; 9; 10; 160; 8195]). reflexivity. Defined.

(** X2.  Whatever the input, the only whitespace in the cleaned text is the
    plain space U+0020: tabs, line breaks and the Unicode spaces are gone,
    so that the text is one line. *)
Theorem clean_text_plain_spaces (text : option pystr) :
  forallb plain (clean_text text) = true.
Proof.
  destruct text as [t|]; [|done]. rewrite clean_text_some.
  apply forallb_truncate; [|reflexivity].
  unfold clean_body, PyStr.sub_non_ascii. apply forallb_filter.
  apply (spaced_plain false), sub_ws_from_spaced.
Qed.

(** X3.  The cleaned form of an ASCII text has no whitespace at either end,
    and its whitespace is single spaces between other characters. *)
Theorem clean_text_tidy (x : pystr) :
  forallb PyStr.isascii x = true ->
  head_ok (clean_text (Some x)) /\ last_ok (clean_text (Some x))
  /\ spaced false (clean_text (Some x)) = true.
Proof.
  intros Hx. rewrite clean_text_some.
  destruct (clean_body_shape x Hx) as (Hh & Hl & Hs & Ha).
  destruct (truncate_fix _ Hh Hl Hs Ha) as (Hh' & Hl' & Hs' & _). done.
Qed.

Lemma clean_text_tidy_witness :
  head_ok (clean_text (Some (py "  a   b  ")))
  /\ last_ok (clean_text (Some (py "  a   b  ")))
  /\ spaced false (clean_text (Some (py "  a   b  "))) = true.
Proof. apply (clean_text_tidy (py "  a   b  ")). reflexivity. Defined.

(** X4.  An ASCII text of at most 200 characters that has no whitespace at
    its ends and only single spaces inside is returned as it is. *)
Theorem clean_text_fixed_point (s : pystr) :
  forallb PyStr.isascii s = true -> head_ok s -> last_ok s ->
  spaced false s = true -> (length s <= 200)%nat ->
  clean_text (Some s) = s.
Proof.
  intros Ha Hh Hl Hs Hlen. rewrite clean_text_some.
  rewrite (clean_body_fix _ Hh Hl Hs Ha). unfold truncate.
  apply Nat.ltb_ge in Hlen. by rewrite Hlen.
Qed.

Lemma clean_text_fixed_point_witness :
  clean_text (Some (py "Metro rail")) = py "Metro rail".
Proof.
  apply (clean_text_fixed_point (py "Metro rail"));
    [reflexivity|reflexivity|reflexivity|reflexivity|vm_compute; lia].
Defined.

(** ** More on [categorize_headlines] *)

Lemma first_match_other_news (unicode_lower : pystr -> pystr) (h : Headline) :
  let t := lower unicode_lower (title h) in
  category_of unicode_lower h = OTHER_NEWS
  <-> ~ rule_fires energy t /\ ~ rule_fires construction t
      /\ ~ rule_fires tenders t /\ ~ rule_fires equipment t
      /\ ~ rule_fires tech t.
Proof.
  cbv zeta. unfold category_of, priority_rules, first_match.
  rewrite <- !any_in_spec.
  destruct (any_in energy _); [split; [discriminate|intros [H _]; by destruct H]|].
  destruct (any_in construction _);
    [split; [discriminate|intros (_ & H & _); by destruct H]|].
  destruct (any_in tenders _);
    [split; [discriminate|intros (_ & _ & H & _); by destruct H]|].
  destruct (any_in equipment _);
    [split; [discriminate|intros (_ & _ & _ & H & _); by destruct H]|].
  destruct (any_in tech _);
    [split; [discriminate|intros (_ & _ & _ & _ & H); by destruct H]|].
  split; [intros _|done]. repeat split; discriminate.
Qed.

(** X5.  [categorize_headlines] puts a headline of its input in the bucket
    Other News exactly when no keyword of any of the five rule sets occurs
    in its lower-cased title. *)
Theorem categorize_headlines_other_news
    (unicode_lower : pystr -> pystr) (hs : list Headline) (h : Headline) :
  In h hs ->
  let t := lower unicode_lower (title h) in
  In h (dict_get OTHER_NEWS (categorize_headlines unicode_lower hs))
  <-> ~ rule_fires energy t /\ ~ rule_fires construction t
      /\ ~ rule_fires tenders t /\ ~ rule_fires equipment t
      /\ ~ rule_fires tech t.
Proof.
  intros Hin. cbv zeta. rewrite <- first_match_other_news.
  rewrite dict_get_categorize, <- list_elem_of_In, list_elem_of_filter.
  rewrite list_elem_of_In. tauto.
Qed.

Lemma categorize_headlines_other_news_witness :
  In crane_headline
     (dict_get OTHER_NEWS
        (categorize_headlines (fun s => s) [ongc_headline; crane_headline]))
  <-> ~ rule_fires energy (lower (fun s => s) (title crane_headline))
      /\ ~ rule_fires construction (lower (fun s => s) (title crane_headline))
      /\ ~ rule_fires tenders (lower (fun s => s) (title crane_headline))
      /\ ~ rule_fires equipment (lower (fun s => s) (title crane_headline))
      /\ ~ rule_fires tech (lower (fun s => s) (title crane_headline)).
Proof.
  apply (categorize_headlines_other_news (fun s => s)
           [ongc_headline; crane_headline] crane_headline).
  simpl. tauto.
Defined.

(** X6.  Whatever the input, the result has the six buckets of the
    dictionary literal, in its order: no bucket is added, dropped or
    moved. *)
Theorem categorize_headlines_keys
    (unicode_lower : pystr -> pystr) (hs : list Headline) :
  List.map fst (categorize_headlines unicode_lower hs)
  = [ENERGY_OIL; CONSTRUCTION; TENDERS; TECHNOLOGY; HEAVY_EQUIPMENT; OTHER_NEWS].
Proof. apply categorize_keys. Qed.

(** X7.  Categorizing two lists one after the other: each bucket of the
    joined list is the bucket of the first list followed by the bucket of
    the second. *)
Theorem categorize_headlines_app
    (unicode_lower : pystr -> pystr) (hs1 hs2 : list Headline) (c : pystr) :
  dict_get c (categorize_headlines unicode_lower (hs1 ++ hs2))
  = dict_get c (categorize_headlines unicode_lower hs1)
    ++ dict_get c (categorize_headlines unicode_lower hs2).
Proof. rewrite !dict_get_categorize. apply filter_app. Qed.

(** ** The scraper *)

Section LinkFacts.
Import PyStr.

Lemma lstrip_char_split ch s :
  exists n, s = repeat ch n ++ lstrip_char ch s.
Proof.
  induction s as [|c s [n IH]]; simpl.
  - by exists O.
  - destruct (N.eqb_spec c ch) as [->|Hne].
    + exists (S n). simpl. by f_equal.
    + by exists O.
Qed.

Lemma lstrip_char_head ch s :
  match lstrip_char ch s with [] => True | c :: _ => c <> ch end.
Proof.
  induction s as [|c s IH]; simpl; [done|].
  destruct (N.eqb_spec c ch); [exact IH|done].
Qed.

Lemma rev_repeat (ch : N) n : rev (repeat ch n) = repeat ch n.
Proof.
  induction n as [|n IH]; simpl; [done|].
  rewrite IH. clear IH. induction n as [|n IH]; simpl; [done|]. by rewrite IH.
Qed.

Lemma rstrip_char_split ch s :
  exists n, s = rstrip_char ch s ++ repeat ch n.
Proof.
  destruct (lstrip_char_split ch (rev s)) as [n Hn]. exists n.
  unfold rstrip_char. rewrite <- (rev_repeat ch n), <- rev_app_distr, <- Hn.
  by rewrite rev_involutive.
Qed.

Lemma rstrip_char_last ch s :
  match rev (rstrip_char ch s) with [] => True | c :: _ => c <> ch end.
Proof. unfold rstrip_char. rewrite rev_involutive. apply lstrip_char_head. Qed.

(** Stripping a character that does not occur in [p] keeps the prefix [p]. *)
Lemma rstrip_char_keeps_prefix ch s p :
  ~ In ch p -> startswith s p = true -> startswith (rstrip_char ch s) p = true.
Proof.
  intros Hp Hs. apply startswith_spec in Hs as [post ->].
  destruct (rstrip_char_split ch (p ++ post)) as [n Hn].
  apply startswith_spec.
  apply app_eq_inv in Hn as [(k & Hk & Hk')|(k & Hk & _)].
  - destruct k as [|y k].
    + exists []. rewrite app_nil_r in Hk. by rewrite app_nil_r.
    + exfalso. apply Hp. rewrite Hk. apply in_app_iff. right.
      assert (Hy : In y (repeat ch n)) by (rewrite Hk'; by left).
      apply repeat_spec in Hy. subst y. by left.
  - exists k. by rewrite Hk.
Qed.

Lemma resolve_link_keeps_http site_url link :
  PyStr.startswith site_url (py "http") = true ->
  PyStr.startswith (resolve_link site_url link) (py "http") = true.
Proof.
  intros Hurl. destruct link as [[|c h]|]; [done| |done].
  unfold resolve_link.
  destruct (PyStr.startswith (c :: h) (py "http")) eqn:E; [done|].
  assert (Hb : PyStr.startswith (rstrip_char SLASH site_url) (py "http") = true).
  { apply rstrip_char_keeps_prefix; [|done]. vm_compute. intros H.
    repeat (destruct H as [H|H]; [discriminate H|]). exact H. }
  apply startswith_spec in Hb as [post ->]. apply startswith_spec.
  exists (post ++ py "/" ++ lstrip_char SLASH (c :: h)). by rewrite <- app_assoc.
Qed.

End LinkFacts.

(** X8.  A link that starts with [http] is kept as it is, a missing or
    empty link is replaced by the address of the site, and any other link
    is joined to the address of the site with exactly one slash: the
    trailing slashes of the address and the leading slashes of the link are
    dropped first. *)
Theorem resolve_link_cases (url : pystr) (href : option pystr) :
  match href with
  | None => resolve_link url href = url
  | Some [] => resolve_link url href = url
  | Some h =>
      if PyStr.startswith h (py "http") then resolve_link url href = h
      else exists base path n m,
          resolve_link url href = base ++ [SLASH] ++ path
          /\ url = base ++ repeat SLASH n /\ h = repeat SLASH m ++ path
          /\ last base <> Some SLASH /\ head path <> Some SLASH
  end.
Proof.
  destruct href as [[|c h]|]; [done| |done].
  unfold resolve_link. destruct (PyStr.startswith (c :: h) (py "http")); [done|].
  destruct (rstrip_char_split SLASH url) as [n Hn].
  destruct (lstrip_char_split SLASH (c :: h)) as [m Hm].
  exists (rstrip_char SLASH url), (lstrip_char SLASH (c :: h)), n, m.
  split; [done|]. split; [done|]. split; [done|]. split.
  - pose proof (rstrip_char_last SLASH url) as H.
    rewrite <- (rev_involutive (rstrip_char SLASH url)).
    destruct (rev (rstrip_char SLASH url)) as [|a r]; [done|].
    simpl. rewrite last_snoc. congruence.
  - pose proof (lstrip_char_head SLASH (c :: h)) as H.
    destruct (lstrip_char SLASH (c :: h)); [done|]. simpl. congruence.
Qed.

(** X9.  When the address of the site starts with [http], so does every
    link made for one of its elements. *)
Theorem resolve_link_http (url : pystr) (href : option pystr) :
  PyStr.startswith url (py "http") = true ->
  PyStr.startswith (resolve_link url href) (py "http") = true.
Proof. apply resolve_link_keeps_http. Qed.

Lemma resolve_link_http_witness :
  PyStr.startswith
    (resolve_link (py "https://ongcindia.com/") (Some (py "/news/1")))
    (py "http") = true.
Proof.
  apply (resolve_link_http (py "https://ongcindia.com/") (Some (py "/news/1"))).
  reflexivity.
Defined.

Section ScraperFacts.

Variable Soup : Type.
Variable get_soup : pystr -> result Soup.
Variable select : Soup -> pystr -> list Article.

(** The elements the loop of one site runs over. *)
Let selected (site : pystr * pystr) (soup : Soup) : list Article :=
  match selector (fst site) with
  | Some css => select soup css
  | None => []
  end.

(** What a site adds to [headlines]: nothing when its page raised. *)
Let contribution (site : pystr * pystr) : list Headline :=
  match get_soup (snd site) with
  | Ok soup => site_headlines (fst site) (snd site) (selected site soup)
  | Raise _ => []
  end.

Lemma scrape_articles_fold source url articles headlines :
  fold_left (scrape_article source url) articles headlines
  = headlines
    ++ flat_map (fun a =>
                   match clean_text (Some (get_text a)) with
                   | [] => []
                   | c :: t =>
                       [mkHeadline (c :: t) source (resolve_link url (href a))]
                   end) articles.
Proof.
  revert headlines.
  induction articles as [|a l IH]; intros hl; cbn [fold_left flat_map].
  - by rewrite app_nil_r.
  - rewrite IH. unfold scrape_article.
    destruct (clean_text (Some (get_text a))) as [|c t]; [done|].
    rewrite <- app_assoc. reflexivity.
Qed.

(** One more site, after the sites before it. *)
Let next (acc : result (list Headline)) (site : pystr * pystr)
  : result (list Headline) :=
  let* headlines := acc in scrape_site Soup get_soup select headlines site.

Lemma scrape_site_ok headlines site :
  not_interrupted get_soup site ->
  scrape_site Soup get_soup select headlines site
  = Ok (headlines ++ contribution site).
Proof.
  unfold not_interrupted, scrape_site, contribution, site_headlines, selected,
    try_except, bind.
  intros Hsite. destruct (get_soup (snd site)) as [soup|[e|b]].
  - f_equal. apply scrape_articles_fold.
  - by rewrite app_nil_r.
  - by destruct (Hsite b).
Qed.

Lemma scrape_site_interrupted headlines site b :
  get_soup (snd site) = Raise (BaseException b) ->
  scrape_site Soup get_soup select headlines site = Raise (BaseException b).
Proof. unfold scrape_site, try_except, bind. by intros ->. Qed.

Lemma scrape_site_returns headlines site hs :
  scrape_site Soup get_soup select headlines site = Ok hs ->
  not_interrupted get_soup site /\ hs = headlines ++ contribution site.
Proof.
  intros H. assert (Hsite : not_interrupted get_soup site).
  { intros b Hb. by rewrite (scrape_site_interrupted _ _ _ Hb) in H. }
  split; [done|]. rewrite (scrape_site_ok _ _ Hsite) in H. congruence.
Qed.

Lemma scrape_sites_raise sites e : fold_left next sites (Raise e) = Raise e.
Proof. induction sites as [|site sites IH]; [done|]. exact IH. Qed.


Lemma scrape_sites_returns sites headlines hs :
  fold_left next sites (Ok headlines) = Ok hs ->
  hs = headlines ++ flat_map contribution sites.
Proof.
  revert headlines. induction sites as [|site sites IH]; intros hl;
    cbn [fold_left flat_map].
  - intros [= <-]. by rewrite app_nil_r.
  - unfold next at 2. cbn [bind].
    destruct (scrape_site Soup get_soup select hl site) as [hl'|e] eqn:E.
    + apply scrape_site_returns in E as [_ ->]. intros H.
      rewrite (IH _ H). by rewrite <- app_assoc.
    + by rewrite scrape_sites_raise.
Qed.


Lemma scrape_example_fold :
  scrape_example Soup get_soup select = fold_left next urls (Ok []).
Proof. reflexivity. Qed.

Lemma site_headlines_length source url articles :
  (length (site_headlines source url articles) <= 10)%nat.
Proof.
  unfold site_headlines.
  assert (H : (length (take 10 articles) <= 10)%nat)
    by (rewrite length_take; lia).
  revert H. generalize (take 10 articles). intros l Hl.
  etransitivity; [|exact Hl]. clear Hl.
  induction l as [|a l IH]; cbn [flat_map]; [done|].
  rewrite length_app.
  destruct (clean_text (Some (get_text a))); cbn [length]; lia.
Qed.

Lemma clean_text_some_ascii t :
  forallb PyStr.isascii (clean_text (Some t)) = true.
Proof.
  rewrite clean_text_some. apply forallb_truncate; [|reflexivity].
  apply sub_non_ascii_ascii.
Qed.

Lemma clean_text_some_length t : (length (clean_text (Some t)) <= 203)%nat.
Proof. rewrite clean_text_some. apply truncate_length. Qed.

Lemma site_headlines_Forall label site_url articles :
  PyStr.startswith site_url (py "http") = true ->
  Forall (scraped_ok label) (site_headlines label site_url articles).
Proof.
  intros Hurl. unfold site_headlines. apply Forall_flat_map.
  apply Forall_forall. intros a _.
  destruct (clean_text (Some (get_text a))) as [|c t] eqn:E; [constructor|].
  constructor; [|constructor]. unfold scraped_ok. cbn [title source url].
  split; [done|].
  split; [rewrite <- E; apply clean_text_some_ascii|].
  split; [rewrite <- E; apply clean_text_some_length|].
  split; [done|by apply resolve_link_keeps_http].
Qed.

Lemma contribution_source site :
  Forall (fun h => source h = fst site) (contribution site).
Proof.
  unfold contribution. destruct (get_soup (snd site)); [|constructor].
  unfold site_headlines. apply Forall_flat_map, Forall_forall. intros art _.
  destruct (clean_text (Some (get_text art))); repeat constructor.
Qed.

Lemma filter_one_source (label s : pystr) (l : list Headline) :
  Forall (fun h => source h = s) l ->
  filter (fun h => source h = label) l = if decide (s = label) then l else [].
Proof.
  induction 1 as [|h l Hh Hl IH]; [by destruct (decide _)|].
  rewrite filter_cons, IH, Hh. by destruct (decide (s = label)).
Qed.

Lemma filter_other_sites label sites :
  ~ In label (List.map fst sites) ->
  filter (fun h => source h = label) (flat_map contribution sites) = [].
Proof.
  induction sites as [|site sites IH]; cbn [flat_map List.map]; [done|].
  intros Hnot. rewrite filter_app, IH by (intros H; apply Hnot; by right).
  rewrite (filter_one_source label (fst site)) by apply contribution_source.
  rewrite decide_False; [done|]. intros H. apply Hnot. by left.
Qed.

Lemma contribution_length site : (length (contribution site) <= 10)%nat.
Proof.
  unfold contribution. destruct (get_soup (snd site)); [|simpl; lia].
  apply site_headlines_length.
Qed.

Lemma per_source_bound label sites :
  NoDup (List.map fst sites) ->
  (length (filter (fun h => source h = label) (flat_map contribution sites))
   <= 10)%nat.
Proof.
  induction sites as [|site sites IH]; cbn [flat_map List.map]; [simpl; lia|].
  intros Hnd. apply NoDup_cons in Hnd as [Hnot Hnd].
  rewrite filter_app, length_app.
  rewrite (filter_one_source label (fst site)) by apply contribution_source.
  destruct (decide (fst site = label)) as [<-|Hne].
  - rewrite filter_other_sites by (by rewrite <- list_elem_of_In).
    pose proof (contribution_length site). simpl. lia.
  - specialize (IH Hnd). simpl. lia.
Qed.

Lemma total_bound sites :
  (length (flat_map contribution sites) <= 10 * length sites)%nat.
Proof.
  induction sites as [|site sites IH]; cbn [flat_map length]; [lia|].
  rewrite length_app. pose proof (contribution_length site). lia.
Qed.

Lemma contributions_ok sites :
  Forall (fun site => PyStr.startswith (snd site) (py "http") = true) sites ->
  Forall (fun h => In (source h) (List.map fst sites)
                   /\ scraped_ok (source h) h)
         (flat_map contribution sites).
Proof.
  induction 1 as [|site sites Hs Hl IH]; cbn [flat_map List.map]; [constructor|].
  apply Forall_app. split.
  - unfold contribution. destruct (get_soup (snd site)); [|constructor].
    eapply Forall_impl;
      [apply (site_headlines_Forall (fst site) (snd site) _ Hs)|].
    intros h Hh. assert (Hsrc : source h = fst site) by apply Hh.
    rewrite Hsrc. split; [by left|exact Hh].
  - eapply Forall_impl; [exact IH|]. intros h [Hin Hok]. split; [by right|done].
Qed.


Lemma scrape_example_returns hs :
  scrape_example Soup get_soup select = Ok hs ->
  hs = flat_map contribution urls.
Proof. rewrite scrape_example_fold. apply scrape_sites_returns. Qed.

End ScraperFacts.

Lemma urls_http :
  Forall (fun site => PyStr.startswith (snd site) (py "http") = true) urls.
Proof. repeat constructor. Qed.

Lemma urls_NoDup : NoDup (List.map fst urls).
Proof. refine (bool_decide_unpack (NoDup (List.map fst urls)) _). vm_compute. exact I. Qed.




(** X11.  A run that returns collects at most ten headlines from a site,
    and so at most seventy in all. *)
Theorem scrape_example_bounds
    (Soup : Type) (get_soup : pystr -> result Soup)
    (select : Soup -> pystr -> list Article) (hs : list Headline) :
  scrape_example Soup get_soup select = Ok hs ->
  (length hs <= 70)%nat
  /\ forall label,
       (length (filter (fun h => source h = label) hs) <= 10)%nat.
Proof.
  intros H. apply scrape_example_returns in H. subst hs. split.
  - apply (total_bound Soup get_soup select urls).
  - intros label. apply per_source_bound, urls_NoDup.
Qed.

Lemma scrape_example_bounds_witness :
  (length (List.map (fun site =>
                       mkHeadline (py "Metro line opens") (fst site)
                                  (resolve_link (snd site)
                                                (Some (py "/news/metro-line"))))
                    urls) <= 70)%nat
  /\ forall label,
       (length (filter (fun h => source h = label)
                  (List.map (fun site =>
                               mkHeadline (py "Metro line opens") (fst site)
                                          (resolve_link (snd site)
                                             (Some (py "/news/metro-line"))))
                            urls)) <= 10)%nat.
Proof.
  apply (scrape_example_bounds unit site_up one_article). reflexivity.
Defined.

(** X12.  Every headline that is collected has a title that is not empty,
    is ASCII and has at most 203 characters, the label of one of the seven
    sites as its source, and a link that starts with [http]. *)
Theorem scrape_example_well_formed
    (Soup : Type) (get_soup : pystr -> result Soup)
    (select : Soup -> pystr -> list Article) (hs : list Headline) :
  scrape_example Soup get_soup select = Ok hs ->
  Forall (fun h => In (source h) (List.map fst urls) /\ scraped_ok (source h) h)
         hs.
Proof.
  intros H. apply scrape_example_returns in H. subst hs.
  apply contributions_ok, urls_http.
Qed.

Lemma scrape_example_well_formed_witness :
  Forall (fun h => In (source h) (List.map fst urls) /\ scraped_ok (source h) h)
         (List.map (fun site =>
                      mkHeadline (py "Metro line opens") (fst site)
                                 (resolve_link (snd site)
                                               (Some (py "/news/metro-line"))))
                   urls).
Proof.
  apply (scrape_example_well_formed unit site_up one_article). reflexivity.
Defined.

(** ** More on [str.replace] and the dispatcher *)

Section ReplaceMore.
Import PyStr.

Variables (old new : pystr).
Hypothesis old_nonempty : old <> [].

Local Abbreviation R := (replace_from old new O).

(** The three ways a scan can start. *)
Lemma replace_from_cases s :
  (s = [] /\ R s = [])
  \/ (exists rest, s = old ++ rest /\ R s = new ++ R rest)
  \/ (exists c s', s = c :: s' /\ startswith s old = false /\ R s = c :: R s').
Proof using old_nonempty.
  destruct s as [|c s']; [by left|]. right.
  destruct (startswith (c :: s') old) eqn:E.
  - left. apply startswith_spec in E as [rest ->]. exists rest.
    split; [done|]. by apply replace_from_match.
  - right. exists c, s'. split; [done|]. split; [done|].
    by apply replace_from_keep.
Qed.

(** Induction along the scan. *)
Lemma replace_from_scan (P : pystr -> pystr -> Prop) :
  P [] [] ->
  (forall rest, P rest (R rest) -> P (old ++ rest) (new ++ R rest)) ->
  (forall c s, startswith (c :: s) old = false -> P s (R s) ->
               P (c :: s) (c :: R s)) ->
  forall s, P s (R s).
Proof using old_nonempty.
  intros Hnil Hmatch Hkeep s.
  remember (length s) as n eqn:Hn. revert s Hn.
  induction n as [n IH] using lt_wf_ind. intros s Hn.
  destruct (replace_from_cases s)
    as [[-> ->]|[(rest & -> & ->)|(c & s' & -> & E & ->)]].
  - exact Hnil.
  - apply Hmatch. apply (IH (length rest)); [|done].
    subst n. rewrite length_app. destruct old; [done|]. simpl. lia.
  - apply Hkeep; [done|]. apply (IH (length s')); [|done]. subst n. simpl. lia.
Qed.

Lemma replace_from_absent s : contains s old = false -> R s = s.
Proof using old_nonempty.
  apply (replace_from_scan (fun s r => contains s old = false -> r = s)).
  - done.
  - intros rest _ H. exfalso.
    assert (contains (old ++ rest) old = true); [|congruence].
    apply contains_spec. by exists [], rest.
  - intros c s' _ IH H. cbn [contains] in H.
    apply orb_false_iff in H as [_ H]. by rewrite IH.
Qed.

Lemma replace_from_length s :
  (length new <= length old)%nat -> (length (R s) <= length s)%nat.
Proof using old_nonempty.
  intros Hlen.
  apply (replace_from_scan (fun s r => (length r <= length s)%nat)).
  - done.
  - intros rest IH. rewrite !length_app. lia.
  - intros c s' _ IH. simpl. lia.
Qed.

Hypothesis new_nonempty : new <> [].

(** When [new] and [q] have no character in common, a text that [q] heads
    after the replacement was headed by [q] before it. *)
Lemma startswith_replace_from q s :
  (forall c, In c new -> In c q -> False) ->
  startswith (R s) q = true -> startswith s q = true.
Proof using old_nonempty new_nonempty.
  revert s. induction q as [|a q IH]; intros s Hf; [done|].
  destruct (replace_from_cases s)
    as [[-> ->]|[(rest & -> & ->)|(c & s' & -> & E & ->)]].
  - done.
  - destruct new as [|n0 new']; [done|]. simpl.
    intros H. apply andb_prop in H as [H _]. apply N.eqb_eq in H. subst n0.
    exfalso. apply (Hf a); by left.
  - simpl. intros H. apply andb_prop in H as [-> H]. simpl.
    apply IH; [|done]. intros x Hx Hq. apply (Hf x Hx). by right.
Qed.

Lemma contains_foreign_prefix p t :
  p <> [] -> (forall c, In c new -> In c p -> False) ->
  contains t p = false -> contains (new ++ t) p = false.
Proof.
  intros Hp Hf Ht. clear old_nonempty new_nonempty.
  induction new as [|n0 new' IH]; [done|].
  cbn [app contains]. apply orb_false_iff. split.
  - destruct p as [|a p']; [done|]. simpl.
    destruct (N.eqb_spec a n0) as [->|]; [|done].
    exfalso. apply (Hf n0); by left.
  - apply IH. intros c Hc. apply Hf. by right.
Qed.

(** No occurrence of [p] is made by the replacement. *)
Lemma replace_from_makes_none p s :
  p <> [] -> (forall c, In c new -> In c p -> False) ->
  contains s p = false -> contains (R s) p = false.
Proof using old_nonempty new_nonempty.
  intros Hp Hf.
  apply (replace_from_scan
           (fun s r => contains s p = false -> contains r p = false)).
  - done.
  - intros rest IH H. apply contains_foreign_prefix; [done|done|].
    apply IH. destruct (contains rest p) eqn:E; [|done].
    apply contains_spec in E as (pre & post & ->).
    assert (contains (old ++ pre ++ p ++ post) p = true); [|congruence].
    apply contains_spec. exists (old ++ pre), post. by rewrite <- app_assoc.
  - intros c s' _ IH H.
    assert (Hs : startswith (c :: s') p = false /\ contains s' p = false).
    { cbn [contains] in H. by apply orb_false_iff in H. }
    destruct Hs as [Hs Hc]. cbn [contains]. apply orb_false_iff.
    split; [|by apply IH].
    destruct (startswith (c :: R s') p) eqn:E; [|done].
    destruct (startswith (c :: s') old) eqn:E'.
    + (* not reached: the head was kept *)
      destruct p as [|a p']; [done|]. simpl in E, Hs.
      apply andb_prop in E as [Ea E]. rewrite Ea in Hs. simpl in Hs.
      assert (startswith s' p' = true); [|congruence].
      apply startswith_replace_from; [|done].
      intros x Hx Hq. apply (Hf x Hx). by right.
    + rewrite <- (replace_from_keep old new c s' E') in E.
      apply startswith_replace_from in E; [congruence|done].
Qed.

(** No occurrence of [old] is left by the replacement. *)
Lemma replace_from_leaves_none s :
  (forall c, In c new -> In c old -> False) -> contains (R s) old = false.
Proof using old_nonempty new_nonempty.
  intros Hf. apply (replace_from_scan (fun s r => contains r old = false)).
  - simpl. destruct old; [done|]. done.
  - intros rest IH. by apply contains_foreign_prefix.
  - intros c s' E IH. cbn [contains]. apply orb_false_iff. split; [|done].
    destruct (startswith (c :: R s') old) eqn:E'; [|done].
    rewrite <- (replace_from_keep old new c s' E) in E'.
    apply startswith_replace_from in E'; [congruence|done].
Qed.

End ReplaceMore.

Section ReplaceCalls.
Import PyStr.

Lemma replace_absent s old new :
  old <> [] -> contains s old = false -> replace s old new = s.
Proof.
  intros Ho H. rewrite (replace_nonempty old new Ho).
  by apply replace_from_absent.
Qed.

Lemma replace_length s old new :
  old <> [] -> (length new <= length old)%nat ->
  (length (replace s old new) <= length s)%nat.
Proof.
  intros Ho H. rewrite (replace_nonempty old new Ho).
  by apply replace_from_length.
Qed.

Lemma replace_makes_none s old new p :
  old <> [] -> new <> [] -> p <> [] ->
  (forall c, In c new -> In c p -> False) ->
  contains s p = false -> contains (replace s old new) p = false.
Proof.
  intros Ho Hn Hp Hf H. rewrite (replace_nonempty old new Ho).
  by apply replace_from_makes_none.
Qed.

Lemma replace_leaves_none s old new :
  old <> [] -> new <> [] ->
  (forall c, In c new -> In c old -> False) ->
  contains (replace s old new) old = false.
Proof.
  intros Ho Hn Hf. rewrite (replace_nonempty old new Ho).
  by apply replace_from_leaves_none.
Qed.

(** The two strings have no character in common. *)
Ltac no_common_char :=
  let c := fresh "c" in
  let Hn := fresh "Hn" in
  let Hp := fresh "Hp" in
  intros c Hn Hp; vm_compute in Hn;
  repeat (destruct Hn as [Hn|Hn];
          [subst c; vm_compute in Hp;
           repeat (destruct Hp as [Hp|Hp]; [discriminate Hp|]); exact Hp|]);
  exact Hn.

Ltac later_stage :=
  apply replace_makes_none;
  [discriminate|discriminate|discriminate|no_common_char|].

Ltac own_stage :=
  apply replace_leaves_none; [discriminate|discriminate|no_common_char].

Lemma clean_message_absent (m : pystr) :
  Forall (fun p => contains m p = false) rewritten_fragments ->
  clean_message m = m.
Proof.
  intros H. unfold rewritten_fragments in H.
  repeat (apply Forall_cons in H as [? H]).
  unfold clean_message. cbv zeta.
  repeat (rewrite (replace_absent m) by (done || discriminate)).
  reflexivity.
Qed.

(** X13.  A message in which none of the eight fragments occurs is handed
    on unchanged. *)
Theorem clean_message_unchanged (m : pystr) :
  Forall (fun p => contains m p = false) rewritten_fragments ->
  clean_message m = m.
Proof. apply clean_message_absent. Qed.

Lemma clean_message_unchanged_witness :
  clean_message (create_fallback_digest first_occurrences noon two_source_buckets)
  = create_fallback_digest first_occurrences noon two_source_buckets.
Proof.
  apply (clean_message_unchanged
           (create_fallback_digest first_occurrences noon two_source_buckets)).
  repeat constructor.
Defined.

(** X14.  Whatever the message, none of [<li>], [</li>], [<br>], [<br/>] and
    [&nbsp;] occurs in the text that is handed on. *)
Theorem clean_message_no_list_or_break_markup (m : pystr) :
  Forall (fun p => contains (clean_message m) p = false)
         [py "<li>"; py "</li>"; py "<br>"; py "<br/>"; py "&nbsp;"].
Proof.
  unfold clean_message. cbv zeta. repeat constructor.
  - do 5 later_stage. own_stage.
  - do 4 later_stage. own_stage.
  - do 3 later_stage. own_stage.
  - do 2 later_stage. own_stage.
  - own_stage.
Qed.

(** X15.  The text that is handed on is never longer than the message. *)
Theorem clean_message_length (m : pystr) :
  (length (clean_message m) <= length m)%nat.
Proof.
  unfold clean_message. cbv zeta.
  repeat (etransitivity;
          [apply replace_length; [discriminate|vm_compute; lia]|]).
  reflexivity.
Qed.

End ReplaceCalls.

(** The three other fragments can be left in the text: [str.replace] goes
    over the message once, and the removal of a fragment can bring the two
    halves of another together. *)
Example clean_message_leaves_ul :
  clean_message (py "<u<ul>l>") = py "<ul>"
  /\ clean_message (py "</u</ul>l>") = py "</ul>"
  /\ clean_message (py "<br&nbsp;/>") = py "<br />".
Proof. repeat split; vm_compute; reflexivity. Qed.

(** ** The prompt *)

Section PromptFacts.

Lemma prompt_lines_fold items (t : pystr) (n : nat) :
  fold_left (fun a h => (fst a ++ headline_line h, S (snd a))) items (t, n)
  = (t ++ concat (List.map headline_line items), (n + length items)%nat).
Proof.
  revert t n.
  induction items as [|h items IH]; intros t n;
    cbn [fold_left concat List.map length fst snd].
  - by rewrite app_nil_r, Nat.add_0_r.
  - rewrite IH, <- app_assoc. f_equal. lia.
Qed.

Lemma prompt_fold (d : buckets) (t : pystr) (n : nat) :
  fold_left prompt_section d (t, n)
  = (t ++ concat (List.map prompt_bucket_text d),
     (n + list_sum (List.map (fun kv => length (snd kv)) d))%nat).
Proof.
  revert t n.
  induction d as [|[k items] d IH]; intros t n;
    cbn [fold_left concat List.map list_sum fst snd].
  - by rewrite app_nil_r, Nat.add_0_r.
  - unfold prompt_section at 2, prompt_bucket_text at 1. cbn [fst snd].
    destruct items as [|h items].
    + rewrite IH. done.
    + rewrite prompt_lines_fold, IH. cbn [fst snd].
      rewrite <- !app_assoc. f_equal. simpl. lia.
Qed.

Lemma prompt_text_colon (d : buckets) :
  no_items d = false -> In 58 (concat (List.map prompt_bucket_text d)).
Proof.
  induction d as [|[k items] d IH]; [discriminate|].
  cbn [List.map concat]. rewrite in_app_iff.
  destruct items as [|h items].
  - intros H. right. apply IH. exact H.
  - intros _. left. unfold prompt_bucket_text. cbn [fst snd].
    rewrite !in_app_iff. right. right. left. by left.
Qed.

Lemma prompt_text_empty (d : buckets) :
  no_items d = true -> concat (List.map prompt_bucket_text d) = [].
Proof.
  induction d as [|[k items] d IH]; [done|].
  cbn [List.map concat].
  destruct items as [|h items]; [|discriminate].
  intros H. by rewrite IH.
Qed.

End PromptFacts.

(** X16.  The prompt gives the greeting, the date, the number of headlines
    of all buckets together, then for every bucket that is not empty its
    label and one line for each of its headlines, and the fixed rules; when
    every bucket is empty the headlines are replaced by the sentence
    [No infrastructure news available.]. *)
Theorem build_prompt_parts (now : Clock) (categorized : buckets) :
  build_prompt now categorized
  = greeting now ++ py "! " ++ [CHART; LF] ++ date_only now ++ [LF; LF]
    ++ py "Here are today's top Infrastructure Headlines ("
    ++ PyStr.of_nat (list_sum (List.map (fun kv => length (snd kv)) categorized))
    ++ py " total):" ++ [LF]
    ++ (if no_items categorized then py "No infrastructure news available."
        else concat (List.map prompt_bucket_text categorized))
    ++ [LF; LF] ++ prompt_rules.
Proof.
  unfold build_prompt. rewrite prompt_fold. cbn [app Nat.add].
  destruct (no_items categorized) eqn:E.
  - rewrite (prompt_text_empty _ E). reflexivity.
  - destruct (PyStr.strip (concat (List.map prompt_bucket_text categorized)))
      as [|c t] eqn:Es; [|reflexivity].
    exfalso. pose proof (prompt_text_colon _ E) as Hin.
    apply (strip_keeps _ 58) in Hin; [|reflexivity]. by rewrite Es in Hin.
Qed.

(** ** More on the fallback digest *)

Section FallbackMore.

Variable list_of_set : list pystr -> list pystr.

Lemma sections_of_nonempty (categorized : buckets) :
  concat (List.map (fun kv => bucket_section list_of_set (fst kv) (snd kv))
                   categorized)
  = concat (List.map (fun kv => bucket_section list_of_set (fst kv) (snd kv))
                     (filter (fun kv => snd kv <> []) categorized)).
Proof.
  induction categorized as [|[k items] d IH]; [done|].
  rewrite filter_cons. cbn [List.map concat fst snd].
  destruct items as [|h items].
  - rewrite decide_False by (intros H; by apply H). exact IH.
  - rewrite decide_True by done. cbn [List.map concat fst snd]. by rewrite IH.
Qed.


End FallbackMore.

(** X17.  For a bucket whose headlines all come from one source the summary
    is the heading, the number of headlines and that source, whatever the
    order in which sets are enumerated. *)
Theorem bucket_section_single_source
    (f : list pystr -> list pystr) (category s : pystr) (items : list Headline) :
  set_enumeration f -> items <> [] ->
  Forall (fun h => source h = s) items ->
  bucket_section f category items
  = category_heading category ++ PyStr.of_nat (length items)
    ++ py " key updates from " ++ s ++ py "." ++ [LF; LF].
Proof.
  intros Hf Hne Hs. destruct items as [|item items]; [done|].
  unfold bucket_section.
  rewrite (enumeration_singleton f (List.map source (item :: items)) s Hf).
  - reflexivity.
  - done.
  - intros x Hx. apply in_map_iff in Hx as (h & <- & Hh).
    apply (proj1 (Forall_forall _ _) Hs). by apply list_elem_of_In.
Qed.

Lemma bucket_section_single_source_witness :
  bucket_section last_first ENERGY_OIL [ongc_headline; ongc_headline]
  = category_heading ENERGY_OIL ++ PyStr.of_nat 2
    ++ py " key updates from " ++ py "ET Infra" ++ py "." ++ [LF; LF].
Proof.
  apply (bucket_section_single_source last_first ENERGY_OIL (py "ET Infra")
           [ongc_headline; ongc_headline] last_first_enumeration).
  - discriminate.
  - repeat constructor.
Defined.

(** X18.  The fallback digest is the header, one section for every bucket
    that is not empty, in the order of the dictionary, the "no news" line
    exactly when every bucket is empty, and the signature at the end. *)
Theorem create_fallback_digest_sections
    (list_of_set : list pystr -> list pystr) (now : Clock)
    (categorized : buckets) :
  create_fallback_digest list_of_set now categorized
  = digest_header now
    ++ concat (List.map (fun kv => bucket_section list_of_set (fst kv) (snd kv))
                        (filter (fun kv => snd kv <> []) categorized))
    ++ (if no_items categorized then no_news_line ++ [LF; LF] else [])
    ++ signature.
Proof.
  rewrite create_fallback_digest_layout. by rewrite <- sections_of_nonempty.
Qed.

(** ** The whole run *)

Section Occurrences.
Import PyStr.






End Occurrences.


